(** * gogroupimports: import classification, grouping and validation

    A shallow embedding of [main.go] (package [gogroupimports]) and the
    properties of its three stages:

    - [getImportType] / [isInternalPrivateImport]: the classifier;
    - [getImportGroups]: the fold that turns import specs into groups;
    - [areImportsGrouped] and the line-break loop of [Run]: the validator.

    Go strings are byte strings, modelled by [string]; Go [int] is the
    64-bit two's complement integer, modelled by [Z] with the wrap-around
    of [+] written out; a [[]T] is a [list T]; a nil-able pointer to a
    struct that is only ever copied out of is an [option]. A run-time
    panic is the [None] of [option]. *)

From Stdlib Require Import ZArith List Bool Ascii String Lia.
Import ListNotations.

Local Open Scope string_scope.
Local Open Scope list_scope.
Local Open Scope Z_scope.

(* ================================================================= *)
(** ** Go primitives used by the program *)

(** Go's [int] on a 64-bit target. *)
Module int.
Definition min : Z := - 2 ^ 63.
Definition max : Z := 2 ^ 63 - 1.

Definition wrap (z : Z) : Z := (z + 2 ^ 63) mod 2 ^ 64 - 2 ^ 63.

(** [a + b] on [int]. *)
Definition add (a b : Z) : Z := wrap (a + b).

Definition in_range (z : Z) : Prop := min <= z <= max.
End int.

(** [len(s)] *)
Definition len (s : string) : Z := Z.of_nat (String.length s).

(** The slice expression [s[lo:hi]] on a string: it panics unless
    [0 <= lo <= hi <= len(s)]. *)
Definition slice (s : string) (lo hi : Z) : option string :=
  if (0 <=? lo) && (lo <=? hi) && (hi <=? len s)
  then Some (substring (Z.to_nat lo) (Z.to_nat (hi - lo)) s)
  else None.

(** The two functions of package [strings] that the program calls. *)
Module strings.

(** [func HasPrefix(s, prefix string) bool {
      return len(s) >= len(prefix) && s[:len(prefix)] == prefix }] *)
Definition HasPrefix (s prefix : string) : bool :=
  (len prefix <=? len s)
  && String.eqb (substring 0 (String.length prefix) s) prefix.

(** [Index] returns the index of the first instance of [substr] in [s],
    or [-1] if [substr] is not present; [from] counts the bytes of [s]
    already skipped. *)
Fixpoint Index_from (from : Z) (s substr : string) : Z :=
  if HasPrefix s substr then from
  else match s with
       | EmptyString => -1
       | String _ s' => Index_from (from + 1) s' substr
       end.

Definition Index (s substr : string) : Z := Index_from 0 s substr.

(** [func Contains(s, substr string) bool { return Index(s, substr) >= 0 }] *)
Definition Contains (s substr : string) : bool := 0 <=? Index s substr.

End strings.

(* ================================================================= *)
(** ** Data *)

(** [type Settings struct] *)
Record Settings : Type := mkSettings {
  SelfModule : string;
  InternalPrivateDomains : list string
}.

(** [type ImportGroup struct] *)
Record ImportGroup : Type := mkImportGroup {
  startLine : Z;
  endLine : Z;
  importType : string
}.

(** The part of [go/ast] and [go/token] that [getImportGroups] reads. A
    [token.Pos] is an integer; a [*token.FileSet] is used only through
    [fset.Position(p).Line]. *)
Inductive Token : Type := IMPORT | CONST | TYPE | VAR.

Record ImportSpec : Type := mkImportSpec {
  Path_Value : string;   (* importSpec.Path.Value, the quoted literal *)
  Pos : Z;               (* importSpec.Pos() *)
  End_ : Z               (* importSpec.End() *)
}.

Inductive Spec : Type :=
| Spec_Import (importSpec : ImportSpec)
| Spec_Value
| Spec_Type.

Inductive Decl : Type :=
| GenDecl (Tok : Token) (Specs : list Spec)
| FuncDecl
| BadDecl.

Record File : Type := mkFile { Decls : list Decl }.

Record FileSet : Type := mkFileSet { Position_Line : Z -> Z }.

(** What a call of [Run] does: it returns [(nil, err)], or [log.Fatalf]
    prints and ends the process with [os.Exit(1)], or it panics. *)
Inductive RunError : Type :=
| ErrSettings (err : string)
    (* the error of json.Marshal / json.Unmarshal, returned as it is *)
| ErrNotGrouped (filename : string)
    (* "Warning: Imports are not properly grouped in file %s\n." *)
| ErrMissingLineBreak (line : Z).
    (* "Warning: Missing single line break before %d\n" *)

Inductive Outcome : Type :=
| Returned (err : option RunError)
| Fatal_FailedToParse (err : string)   (* log.Fatalf("Failed to parse file: %v", err) *)
| Panicked.

(** The four values [getImportType] returns. *)
Definition builtin : string := "builtin".
Definition public_open_source_or_third_party : string :=
  "public_open_source_or_third_party".
Definition internal_private : string := "internal_private".
Definition own_module : string := "own_module".

(** The category enumeration of the design, and the string that stands
    for each category in the program. *)
Inductive Category : Type := Builtin | ThirdParty | InternalPrivate | OwnModule.

Definition Category_name (c : Category) : string :=
  match c with
  | Builtin => builtin
  | ThirdParty => public_open_source_or_third_party
  | InternalPrivate => internal_private
  | OwnModule => own_module
  end.

(* ================================================================= *)
(** ** The program *)

Section Program.

(** [isBuiltinImport] asks the file system whether
    [$GOROOT/src/<path>] exists ([os.Stat] returned no error). The
    answer is an input of the model. *)
Variable isBuiltinImport : string -> bool.

(** [func isInternalPrivateImport(path string, settings Settings) bool] *)
Definition isInternalPrivateImport (path : string) (settings : Settings) : bool :=
  (fix range (domains : list string) : bool :=
     match domains with
     | [] => false
     | domain :: rest =>
         if strings.Contains path domain then true else range rest
     end) (InternalPrivateDomains settings).

(** [func getImportType(path string, settings Settings) string] *)
Definition getImportType (path : string) (settings : Settings) : string :=
  if isInternalPrivateImport path settings then internal_private
  else if strings.HasPrefix path (SelfModule settings) then own_module
  else if isBuiltinImport path then builtin
  else public_open_source_or_third_party.

(** The state of the loops of [getImportGroups]: [groups] and
    [currentGroup] ([None] is the nil pointer). *)
Definition LoopState : Type := (list ImportGroup * option ImportGroup)%type.

(** The body of the inner loop from the call of [getImportType] on
    (lines 77-93), for an import of path [importPath] whose first and
    last lines are [posLine] and [endLine']. *)
Definition visitImport (settings : Settings) (st : LoopState)
    (importPath : string) (posLine endLine' : Z) : LoopState :=
  let '(groups, currentGroup) := st in
  let importType' := getImportType importPath settings in
  match currentGroup with
  | None =>
      (groups, Some (mkImportGroup posLine endLine' importType'))
  | Some cur =>
      if negb (String.eqb (importType cur) importType')
      then (groups ++ [cur],
            Some (mkImportGroup posLine endLine' importType'))
      else (groups,
            Some (mkImportGroup (startLine cur) endLine' (importType cur)))
  end.

(** [for _, spec := range genDecl.Specs]. The type assertion
    of [spec] to an import spec and the slice that removes the quotes
    can panic. *)
Fixpoint rangeSpecs (fset : FileSet) (settings : Settings)
    (specs : list Spec) (st : LoopState) : option LoopState :=
  match specs with
  | [] => Some st
  | Spec_Import importSpec :: rest =>
      match slice (Path_Value importSpec) 1 (len (Path_Value importSpec) - 1) with
      | Some importPath =>
          rangeSpecs fset settings rest
            (visitImport settings st importPath
               (Position_Line fset (Pos importSpec))
               (Position_Line fset (End_ importSpec)))
      | None => None
      end
  | _ :: _ => None
  end.

(** [for _, decl := range node.Decls] *)
Fixpoint rangeDecls (fset : FileSet) (settings : Settings)
    (decls : list Decl) (st : LoopState) : option LoopState :=
  match decls with
  | [] => Some st
  | GenDecl IMPORT specs :: rest =>
      match rangeSpecs fset settings specs st with
      | Some st' => rangeDecls fset settings rest st'
      | None => None
      end
  | _ :: rest => rangeDecls fset settings rest st
  end.

(** [func getImportGroups(fset, node, settings) ([]ImportGroup, error)].
    The error it returns is always nil, so the model returns the groups
    only and the [log.Fatalf] of [Run] on that error is never reached;
    [None] is a panic. *)
Definition getImportGroups (fset : FileSet) (node : File)
    (settings : Settings) : option (list ImportGroup) :=
  match rangeDecls fset settings (Decls node) ([], None) with
  | Some (groups, Some currentGroup) => Some (groups ++ [currentGroup])
  | Some (groups, None) => Some groups
  | None => None
  end.

(** [expectedSequence] of [areImportsGrouped]. *)
Definition expectedSequence : list string :=
  [builtin; public_open_source_or_third_party; internal_private; own_module].

(** The loop of [areImportsGrouped] from index [i] on. *)
Fixpoint areImportsGrouped_from (i : nat) (groups : list ImportGroup) : bool :=
  match groups with
  | [] => true
  | group :: rest =>
      if (i <? List.length expectedSequence)%nat
         && negb (String.eqb (importType group) (nth i expectedSequence ""))
      then false
      else areImportsGrouped_from (S i) rest
  end.

(** [func areImportsGrouped(groups []ImportGroup) bool] *)
Definition areImportsGrouped (groups : list ImportGroup) : bool :=
  areImportsGrouped_from 0 groups.

(** The line-break loop of [Run] (lines 50-54) from index [i] on;
    [rest] is [importGroups[i:]]. [importGroups[i-1]] is read only
    when [i > 0], where it is in range. *)
Fixpoint lineBreaks_from (importGroups : list ImportGroup) (i : nat)
    (rest : list ImportGroup) : option RunError :=
  match rest with
  | [] => None
  | group :: rest' =>
      if (0 <? i)%nat
         && negb (startLine group =?
                  int.add (endLine (nth (i - 1) importGroups group)) 2)
      then Some (ErrMissingLineBreak (startLine group))
      else lineBreaks_from importGroups (S i) rest'
  end.

Definition lineBreaks (importGroups : list ImportGroup) : option RunError :=
  lineBreaks_from importGroups 0 importGroups.

(** Lines 44-56 of [Run]: the two checks on the groups, and the error
    that [Run] returns. *)
Definition checkGroups (filename : string) (importGroups : list ImportGroup)
    : option RunError :=
  if negb (areImportsGrouped importGroups)
  then Some (ErrNotGrouped filename)
  else lineBreaks importGroups.

(** The collaborators of [Run]: [decodeSettings] is [json.Marshal]
    followed by [json.Unmarshal] into [Settings]; [ParseFile] is
    [parser.ParseFile] on a new file set. Each gives its result or an
    error. *)
Variable MetaData : Type.
Variable decodeSettings : MetaData -> Settings + string.
Variable ParseFile : string -> (FileSet * File) + string.

(** [func Run(filename string, metaData map[string]interface{}) ([]byte, error)].
    The [[]byte] it returns is always nil. *)
Definition Run (filename : string) (metaData : MetaData) : Outcome :=
  match decodeSettings metaData with
  | inr err => Returned (Some (ErrSettings err))
  | inl settings =>
      match ParseFile filename with
      | inr err => Fatal_FailedToParse err
      | inl (fset, node) =>
          match getImportGroups fset node settings with
          | None => Panicked
          | Some importGroups =>
              Returned (checkGroups filename importGroups)
          end
      end
  end.

End Program.

Arguments Run isBuiltinImport {MetaData} decodeSettings ParseFile filename metaData.

(* ================================================================= *)
(** ** The design's view of the grouper *)

(** [ImportRecord]: one import of the file, with its path unquoted and
    its positions resolved to lines. *)
Record ImportRecord : Type := mkImportRecord {
  path : string;
  firstLine : Z;
  lastLine : Z
}.

(** The import records of a file, in file order: the specs of the
    import declarations, read the way [getImportGroups] reads them.
    [None] where [getImportGroups] panics. *)
Definition recordOfSpec (fset : FileSet) (spec : Spec) : option ImportRecord :=
  match spec with
  | Spec_Import importSpec =>
      match slice (Path_Value importSpec) 1 (len (Path_Value importSpec) - 1) with
      | Some importPath =>
          Some (mkImportRecord importPath
                  (Position_Line fset (Pos importSpec))
                  (Position_Line fset (End_ importSpec)))
      | None => None
      end
  | _ => None
  end.

Fixpoint recordsOfSpecs (fset : FileSet) (specs : list Spec)
    : option (list ImportRecord) :=
  match specs with
  | [] => Some []
  | spec :: rest =>
      match recordOfSpec fset spec, recordsOfSpecs fset rest with
      | Some r, Some rs => Some (r :: rs)
      | _, _ => None
      end
  end.

Fixpoint importRecords (fset : FileSet) (decls : list Decl)
    : option (list ImportRecord) :=
  match decls with
  | [] => Some []
  | GenDecl IMPORT specs :: rest =>
      match recordsOfSpecs fset specs, importRecords fset rest with
      | Some rs, Some rs' => Some (rs ++ rs')
      | _, _ => None
      end
  | _ :: rest => importRecords fset rest
  end.

Section Grouper.

Variable isBuiltinImport : string -> bool.
Variable settings : Settings.

(** The category of a record is the classifier's answer on its path. *)
Definition category (r : ImportRecord) : string :=
  getImportType isBuiltinImport (path r) settings.

(** One step of the loop of [getImportGroups] on a record. *)
Definition visitRecord (st : LoopState) (r : ImportRecord) : LoopState :=
  visitImport isBuiltinImport settings st (path r) (firstLine r) (lastLine r).

(** Lines 98-100: the open group, if any, is appended. *)
Definition closeGroups (st : LoopState) : list ImportGroup :=
  match st with
  | (groups, Some currentGroup) => groups ++ [currentGroup]
  | (groups, None) => groups
  end.

(** The grouper on records: the loop of [getImportGroups] run on the
    records of the file. *)
Definition group (records : list ImportRecord) : list ImportGroup :=
  closeGroups (fold_left visitRecord records ([], None)).

(** The maximal runs of consecutive records of one category, as the
    design words them; this definition does not follow the loop. *)
Fixpoint runsOf (records : list ImportRecord) : list (list ImportRecord) :=
  match records with
  | [] => []
  | r :: rest =>
      match runsOf rest with
      | (r' :: run) :: runs =>
          if String.eqb (category r) (category r')
          then (r :: r' :: run) :: runs
          else [r] :: (r' :: run) :: runs
      | _ => [[r]]
      end
  end.

(** The group that stands for a run: from the first line of its first
    record to the last line of its last record. *)
Definition groupOfRun (run : list ImportRecord) : ImportGroup :=
  match run with
  | [] => mkImportGroup 0 0 ""
  | r :: _ =>
      mkImportGroup (firstLine r) (lastLine (last run r)) (category r)
  end.

Definition runCategory (run : list ImportRecord) : string :=
  importType (groupOfRun run).

(** A run is not empty and all its records have one category. *)
Definition uniform (run : list ImportRecord) : Prop :=
  run <> [] /\
  forall r r', In r run -> In r' run -> category r = category r'.

(** No two neighbours of the list are equal. *)
Fixpoint neighboursDiffer (cats : list string) : Prop :=
  match cats with
  | c :: ((c' :: _) as rest) => c <> c' /\ neighboursDiffer rest
  | _ => True
  end.

(** [runs] cuts [records] into its maximal runs: the runs put end to
    end are the records, each run has one category, and a run and the
    next one have different categories. *)
Definition MaximalRuns (records : list ImportRecord)
    (runs : list (list ImportRecord)) : Prop :=
  List.concat runs = records /\
  Forall uniform runs /\
  neighboursDiffer (map runCategory runs).

End Grouper.

(** The string literal that the parser stores for an import of [p]: the
    path between two double quotes (byte 34). *)
Definition quoted (p : string) : string :=
  String (ascii_of_nat 34) (p ++ String (ascii_of_nat 34) EmptyString)%string.

(** The validator's reading of the groups. *)

(** Exactly one blank line between the last line of [g] and the first
    line of [h]. *)
Definition oneBlankLine (g h : ImportGroup) : Prop :=
  startLine h = endLine g + 2.

(** [endLine + 2] does not overflow [int]. Line numbers of a file are
    far below the bound. *)
Definition endLineFits (g : ImportGroup) : Prop :=
  int.min <= endLine g /\ endLine g + 2 <= int.max.

(** The line-break loop told by pairs: [prev] is the group before the
    first group of [rest]. It is shown equal to the loop of [Run] below. *)
Fixpoint lineBreaks_after (prev : ImportGroup) (rest : list ImportGroup)
    : option RunError :=
  match rest with
  | [] => None
  | group :: rest' =>
      if negb (startLine group =? int.add (endLine prev) 2)
      then Some (ErrMissingLineBreak (startLine group))
      else lineBreaks_after group rest'
  end.

(** Every group and the next one are one blank line apart. *)
Definition allOneBlankLine (groups : list ImportGroup) : Prop :=
  forall (i : nat) (g h : ImportGroup),
    nth_error groups i = Some g ->
    nth_error groups (S i) = Some h ->
    oneBlankLine g h.

(** [absorb cur gs] puts the group [cur] in front of the groups [gs] of
    what follows; when the first of them has the category of [cur], the
    two are one group. *)
Definition absorb (cur : ImportGroup) (gs : list ImportGroup) : list ImportGroup :=
  match gs with
  | [] => [cur]
  | g :: gs' =>
      if String.eqb (importType cur) (importType g)
      then mkImportGroup (startLine cur) (endLine g) (importType cur) :: gs'
      else cur :: g :: gs'
  end.

(** *** Well-formed syntax trees, and what the loops read of them *)

(** A spec that the inner loop reads without a panic: an import spec
    whose literal has room for its two delimiters. *)
Definition importSpecOk (spec : Spec) : Prop :=
  match spec with
  | Spec_Import importSpec => 2 <= len (Path_Value importSpec)
  | _ => False
  end.

Definition declOk (decl : Decl) : Prop :=
  match decl with
  | GenDecl IMPORT specs => Forall importSpecOk specs
  | _ => True
  end.

(** The specs of the import declarations, block after block. *)
Fixpoint importSpecs (decls : list Decl) : list Spec :=
  match decls with
  | [] => []
  | GenDecl IMPORT specs :: rest => specs ++ importSpecs rest
  | _ :: rest => importSpecs rest
  end.

(** Records at least [d] lines apart: each record ends no earlier than
    it starts, and the next one starts at least [d] lines after it
    ends. *)
Fixpoint recordsApart (d : Z) (records : list ImportRecord) : Prop :=
  match records with
  | [] => True
  | r :: rest =>
      firstLine r <= lastLine r /\
      match rest with
      | [] => True
      | r' :: _ => lastLine r + d <= firstLine r'
      end /\
      recordsApart d rest
  end.

(** The same for groups. *)
Fixpoint groupsApart (d : Z) (groups : list ImportGroup) : Prop :=
  match groups with
  | [] => True
  | g :: rest =>
      startLine g <= endLine g /\
      match rest with
      | [] => True
      | h :: _ => endLine g + d <= startLine h
      end /\
      groupsApart d rest
  end.

(** The comparison of the line-break loop, as the program computes it. *)
Definition lineBreakOk (g h : ImportGroup) : Prop :=
  startLine h = int.add (endLine g) 2.

(* ================================================================= *)
(** ** Facts on the Go primitives *)

Section StringFacts.

Lemma substring_0_append (p rest : string) :
  substring 0 (String.length p) (p ++ rest)%string = p.
Proof.
  induction p as [| a p IH]; simpl.
  - destruct rest; reflexivity.
  - now rewrite IH.
Qed.

Lemma substring_0_split (p s : string) :
  substring 0 (String.length p) s = p ->
  exists rest, s = (p ++ rest)%string.
Proof.
  revert s; induction p as [| a p IH]; intros s H.
  - now exists s.
  - destruct s as [| b s]; simpl in H; [discriminate |].
    injection H as -> H.
    destruct (IH _ H) as [rest ->].
    now exists rest.
Qed.

Lemma length_append (a b : string) :
  String.length (a ++ b)%string = (String.length a + String.length b)%nat.
Proof. induction a; simpl; congruence. Qed.

(** [HasPrefix s p] says that [s] is [p] followed by something. *)
Lemma HasPrefix_spec (s p : string) :
  strings.HasPrefix s p = true <-> exists rest, s = (p ++ rest)%string.
Proof.
  unfold strings.HasPrefix, len. split.
  - intros H. apply andb_true_iff in H as [_ H].
    apply String.eqb_eq in H. now apply substring_0_split.
  - intros [rest ->]. apply andb_true_iff. split.
    + apply Z.leb_le. rewrite length_append. lia.
    + apply String.eqb_eq, substring_0_append.
Qed.

Lemma HasPrefix_empty (s : string) : strings.HasPrefix s "" = true.
Proof. apply HasPrefix_spec. now exists s. Qed.

Lemma Index_from_bounds (s substr : string) (from : Z) :
  strings.Index_from from s substr = -1 \/
  from <= strings.Index_from from s substr.
Proof.
  revert from; induction s as [| a s IH]; intros from; simpl.
  - destruct (strings.HasPrefix "" substr); [right; lia | now left].
  - destruct (strings.HasPrefix (String a s) substr); [right; lia |].
    destruct (IH (from + 1)); [now left | right; lia].
Qed.

Lemma Index_from_found (s substr : string) (from : Z) :
  0 <= from ->
  (0 <= strings.Index_from from s substr <->
   exists pre post, s = (pre ++ substr ++ post)%string).
Proof.
  revert from; induction s as [| a s IH]; intros from Hfrom; simpl.
  - destruct (strings.HasPrefix "" substr) eqn:E.
    + split; [intros _ | lia].
      apply HasPrefix_spec in E as [rest E]. now exists "", rest.
    + split; [lia |]. intros (pre & post & H).
      destruct pre; [| discriminate]. simpl in H.
      assert (strings.HasPrefix "" substr = true)
        by (apply HasPrefix_spec; now exists post).
      congruence.
  - destruct (strings.HasPrefix (String a s) substr) eqn:E.
    + split; [intros _ | lia].
      apply HasPrefix_spec in E as [rest E]. now exists "", rest.
    + rewrite (IH (from + 1)) by lia. split.
      * intros (pre & post & ->). now exists (String a pre), post.
      * intros (pre & post & H). destruct pre as [| b pre]; simpl in H.
        -- assert (strings.HasPrefix (String a s) substr = true)
             by (apply HasPrefix_spec; now exists post).
           congruence.
        -- injection H as _ ->. now exists pre, post.
Qed.

(** [Contains s substr] says that [substr] occurs in [s]. *)
Lemma Contains_spec (s substr : string) :
  strings.Contains s substr = true <->
  exists pre post, s = (pre ++ substr ++ post)%string.
Proof.
  unfold strings.Contains, strings.Index.
  rewrite Z.leb_le. now apply Index_from_found.
Qed.

Lemma wrap_id (z : Z) : int.in_range z -> int.wrap z = z.
Proof.
  unfold int.in_range, int.min, int.max, int.wrap. intros H.
  rewrite Z.mod_small; lia.
Qed.

Lemma add_2_exact (g : ImportGroup) :
  endLineFits g -> int.add (endLine g) 2 = endLine g + 2.
Proof.
  unfold endLineFits, int.add. intros [H1 H2].
  apply wrap_id. unfold int.in_range, int.min, int.max in *. lia.
Qed.

End StringFacts.

(* ================================================================= *)
(** ** The classifier *)

Section Classifier.

Variable isBuiltinImport : string -> bool.

Lemma isInternalPrivateImport_spec (p : string) (settings : Settings) :
  isInternalPrivateImport p settings = true <->
  exists domain,
    In domain (InternalPrivateDomains settings) /\
    strings.Contains p domain = true.
Proof.
  unfold isInternalPrivateImport.
  induction (InternalPrivateDomains settings) as [| d ds IH].
  - split; [discriminate | now intros (? & [] & _)].
  - destruct (strings.Contains p d) eqn:E.
    + split; [intros _ | reflexivity]. exists d. split; [now left | assumption].
    + rewrite IH. split.
      * intros (domain & Hin & Hc). exists domain. split; [now right | assumption].
      * intros (domain & [-> | Hin] & Hc); [congruence |]. now exists domain.
Qed.

Lemma Category_name_inj (c c' : Category) :
  Category_name c = Category_name c' -> c = c'.
Proof. destruct c, c'; simpl; intros H; try reflexivity; discriminate H. Qed.

(** With an empty [SelfModule] every path that is not internal-private
    is own-module: the two last branches of [getImportType] are never
    reached. *)
Lemma getImportType_SelfModule_empty (p : string) (settings : Settings) :
  SelfModule settings = "" ->
  getImportType isBuiltinImport p settings = internal_private \/
  getImportType isBuiltinImport p settings = own_module.
Proof.
  intros H. unfold getImportType. rewrite H, HasPrefix_empty.
  destruct (isInternalPrivateImport p settings); [now left | now right].
Qed.

End Classifier.

(** C8. The classifier is total: for every path, every configuration and
    every answer of the standard-library lookup, [getImportType] returns
    the name of exactly one of the four categories. *)
Theorem getImportType_total :
  forall (isBuiltinImport : string -> bool) (p : string) (settings : Settings),
    exists c : Category,
      getImportType isBuiltinImport p settings = Category_name c /\
      forall c' : Category,
        getImportType isBuiltinImport p settings = Category_name c' -> c' = c.
Proof.
  intros isB p settings.
  assert (E : exists c, getImportType isB p settings = Category_name c).
  { unfold getImportType.
    destruct (isInternalPrivateImport p settings); [now exists InternalPrivate |].
    destruct (strings.HasPrefix p (SelfModule settings)); [now exists OwnModule |].
    destruct (isB p); [now exists Builtin | now exists ThirdParty]. }
  destruct E as [c E]. exists c. split; [exact E |].
  intros c' E'. apply Category_name_inj. congruence.
Qed.

(** C5. Precedence: a path in which one of the configured
    internal-private domains occurs and which starts with the own-module
    prefix is classified internal-private. *)
Theorem getImportType_internal_private_first :
  forall (isBuiltinImport : string -> bool) (p : string) (settings : Settings)
         (domain pre post rest : string),
    In domain (InternalPrivateDomains settings) ->
    p = (pre ++ domain ++ post)%string ->
    p = (SelfModule settings ++ rest)%string ->
    strings.HasPrefix p (SelfModule settings) = true /\
    getImportType isBuiltinImport p settings = Category_name InternalPrivate.
Proof.
  intros isB p settings domain pre post rest Hin Hdom Hpre. split.
  - apply HasPrefix_spec. now exists rest.
  - unfold getImportType.
    replace (isInternalPrivateImport p settings) with true; [reflexivity |].
    symmetry. apply isInternalPrivateImport_spec.
    exists domain. split; [assumption |].
    apply Contains_spec. now exists pre, post.
Qed.

Lemma getImportType_internal_private_first_witness :
  let p := "example.com/app/internal.corp.example/db" in
  let settings := mkSettings "example.com/app" ["git.corp"; "corp.example"] in
  strings.HasPrefix p (SelfModule settings) = true /\
  getImportType (fun _ => false) p settings = Category_name InternalPrivate.
Proof.
  intros p settings.
  apply (getImportType_internal_private_first (fun _ => false) p settings
           "corp.example" "example.com/app/internal." "/db"
           "/internal.corp.example/db").
  - simpl. right. now left.
  - reflexivity.
  - reflexivity.
Defined.

(** C2 fails: with an empty [SelfModule] and no internal-private domain
    in the path, [fmt] is classified own-module, although the
    standard-library lookup knows it. *)
Lemma empty_SelfModule_fmt_own_module :
  let settings := mkSettings "" ["corp.example"] in
  SelfModule settings = "" /\
  isInternalPrivateImport "fmt" settings = false /\
  getImportType (fun p => String.eqb p "fmt") "fmt" settings
  = Category_name OwnModule.
Proof. repeat split. Qed.

(** C2, as the program has it. The own-module rule is [HasPrefix] alone,
    and the empty string is a prefix of every path: when [SelfModule] is
    empty, every path in which no internal-private domain occurs is
    classified own-module, never builtin or third-party. *)
Theorem getImportType_empty_SelfModule :
  forall (isBuiltinImport : string -> bool) (p : string) (settings : Settings),
    SelfModule settings = "" ->
    (forall domain pre post : string,
        In domain (InternalPrivateDomains settings) ->
        p <> (pre ++ domain ++ post)%string) ->
    getImportType isBuiltinImport p settings = Category_name OwnModule.
Proof.
  intros isB p settings Hempty Hnone.
  destruct (getImportType_SelfModule_empty isB p settings Hempty) as [E | E];
    [exfalso | exact E].
  unfold getImportType in E.
  destruct (isInternalPrivateImport p settings) eqn:Hin.
  - apply isInternalPrivateImport_spec in Hin as (domain & Hd & Hc).
    apply Contains_spec in Hc as (pre & post & Hc).
    exact (Hnone domain pre post Hd Hc).
  - rewrite Hempty, HasPrefix_empty in E. discriminate E.
Qed.

Lemma getImportType_empty_SelfModule_witness :
  getImportType (fun p => String.eqb p "fmt") "fmt" (mkSettings "" ["corp.example"])
  = Category_name OwnModule.
Proof.
  apply (getImportType_empty_SelfModule
           (fun p => String.eqb p "fmt") "fmt" (mkSettings "" ["corp.example"])).
  - reflexivity.
  - intros domain pre post [<- | []] E.
    assert (H : strings.Contains "fmt" "corp.example" = true)
      by (apply Contains_spec; now exists pre, post).
    vm_compute in H. discriminate H.
Defined.

(* ================================================================= *)
(** ** The validator *)

Section Validator.

(** The sequence check compares the group at index [k] with
    [expectedSequence[k]] for the indices below four, and nothing
    else. *)
Lemma areImportsGrouped_from_spec (groups : list ImportGroup) (i : nat) :
  areImportsGrouped_from i groups = true <->
  forall (k : nat) (g : ImportGroup),
    nth_error groups k = Some g ->
    (i + k < 4)%nat ->
    importType g = nth (i + k) expectedSequence "".
Proof.
  revert i; induction groups as [| g0 groups IH]; intros i;
    cbn [areImportsGrouped_from].
  - split; [| reflexivity]. intros _ [| k] g H; discriminate H.
  - change (List.length expectedSequence) with 4%nat.
    destruct (i <? 4)%nat eqn:Hi; cbn [andb].
    + destruct (String.eqb_spec (importType g0) (nth i expectedSequence "")) as [E | E];
        cbn [negb].
      * rewrite IH. split.
        -- intros H [| k] g Hk Hlt; simpl in Hk.
           ++ injection Hk as <-. now rewrite Nat.add_0_r.
           ++ rewrite Nat.add_succ_r. apply (H k g Hk). lia.
        -- intros H k g Hk Hlt. specialize (H (S k) g Hk).
           rewrite Nat.add_succ_r in H. apply H. lia.
      * split; [discriminate |]. intros H. exfalso. apply E.
        specialize (H 0%nat g0 eq_refl). rewrite Nat.add_0_r in H.
        apply H. now apply Nat.ltb_lt.
    + apply Nat.ltb_ge in Hi. rewrite IH. split; intros _ k g _ Hlt; lia.
Qed.

Lemma areImportsGrouped_spec (groups : list ImportGroup) :
  areImportsGrouped groups = true <->
  forall (k : nat) (g : ImportGroup),
    nth_error groups k = Some g ->
    (k < 4)%nat ->
    importType g = nth k expectedSequence "".
Proof. apply areImportsGrouped_from_spec. Qed.

(** Two sequences with the same first four groups get the same
    verdict. *)
Lemma areImportsGrouped_firstn (groups : list ImportGroup) :
  areImportsGrouped groups = areImportsGrouped (firstn 4 groups).
Proof.
  apply eq_true_iff_eq. rewrite !areImportsGrouped_spec.
  split; intros H k g Hk Hlt.
  - apply H; [| assumption].
    rewrite nth_error_firstn in Hk.
    destruct (k <? 4)%nat; [assumption | discriminate].
  - apply H; [| assumption]. rewrite nth_error_firstn.
    apply Nat.ltb_lt in Hlt. now rewrite Hlt.
Qed.

(** The entries of [expectedSequence] are pairwise different. *)
Lemma expectedSequence_NoDup (i k : nat) :
  (i < 4)%nat -> (k < 4)%nat ->
  nth i expectedSequence "" = nth k expectedSequence "" -> i = k.
Proof.
  intros Hi Hk.
  destruct i as [| [| [| [| i]]]]; try lia;
    destruct k as [| [| [| [| k]]]]; try lia;
    simpl; intros H; try reflexivity; discriminate H.
Qed.

(** The loop of [Run] by index is the loop by pairs. *)
Lemma lineBreaks_from_after (pre : list ImportGroup) (prev : ImportGroup)
    (rest : list ImportGroup) :
  lineBreaks_from (pre ++ prev :: rest) (S (List.length pre)) rest
  = lineBreaks_after prev rest.
Proof.
  revert pre prev; induction rest as [| g rest IH]; intros pre prev; simpl.
  - reflexivity.
  - rewrite Nat.sub_0_r, nth_middle.
    destruct (negb (startLine g =? int.add (endLine prev) 2)); [reflexivity |].
    specialize (IH (pre ++ [prev]) g).
    rewrite <- app_assoc, length_app in IH. simpl in IH.
    now rewrite Nat.add_1_r in IH.
Qed.

Lemma lineBreaks_cons (g : ImportGroup) (rest : list ImportGroup) :
  lineBreaks (g :: rest) = lineBreaks_after g rest.
Proof. exact (lineBreaks_from_after [] g rest). Qed.

Lemma lineBreaks_after_None (prev : ImportGroup) (rest : list ImportGroup) :
  Forall endLineFits (prev :: rest) ->
  (lineBreaks_after prev rest = None <-> allOneBlankLine (prev :: rest)).
Proof.
  revert prev; induction rest as [| g rest IH]; intros prev Hfit; simpl.
  - split; [| reflexivity]. intros _ [| [| i]] g h Hg Hh; discriminate Hh.
  - inversion Hfit as [| ? ? Hprev Hrest]; subst.
    rewrite (add_2_exact prev Hprev).
    destruct (Z.eqb_spec (startLine g) (endLine prev + 2)) as [E | E]; simpl.
    + rewrite (IH g Hrest). split.
      * intros H [| i] g' h' Hg' Hh'; simpl in Hg', Hh'.
        -- injection Hg' as <-. injection Hh' as <-. exact E.
        -- exact (H i g' h' Hg' Hh').
      * intros H i g' h' Hg' Hh'. exact (H (S i) g' h' Hg' Hh').
    + split; [discriminate |]. intros H. exfalso. apply E.
      exact (H 0%nat prev g eq_refl eq_refl).
Qed.

Lemma lineBreaks_after_first (prev : ImportGroup) (rest : list ImportGroup)
    (i : nat) (g h : ImportGroup) :
  Forall endLineFits (prev :: rest) ->
  nth_error (prev :: rest) i = Some g ->
  nth_error (prev :: rest) (S i) = Some h ->
  ~ oneBlankLine g h ->
  (forall (k : nat) (g' h' : ImportGroup),
      (k < i)%nat ->
      nth_error (prev :: rest) k = Some g' ->
      nth_error (prev :: rest) (S k) = Some h' ->
      oneBlankLine g' h') ->
  lineBreaks_after prev rest = Some (ErrMissingLineBreak (startLine h)).
Proof.
  revert prev rest; induction i as [| i IH]; intros prev rest Hfit Hg Hh Hbad Hgood.
  - destruct rest as [| g1 rest]; [discriminate Hh |]. simpl in Hg, Hh.
    injection Hg as <-. injection Hh as <-. simpl.
    inversion Hfit as [| ? ? Hprev _]; subst.
    rewrite (add_2_exact prev Hprev).
    destruct (Z.eqb_spec (startLine g1) (endLine prev + 2)) as [E | E];
      [contradiction | reflexivity].
  - destruct rest as [| g1 rest]; [destruct i; discriminate Hg |].
    inversion Hfit as [| ? ? Hprev Hrest]; subst. simpl.
    rewrite (add_2_exact prev Hprev).
    assert (E : oneBlankLine prev g1)
      by (apply (Hgood 0%nat); [lia | reflexivity | reflexivity]).
    unfold oneBlankLine in E. rewrite E, Z.eqb_refl. simpl.
    apply IH; try assumption.
    intros k g' h' Hk Hg' Hh'. apply (Hgood (S k)); [lia | assumption | assumption].
Qed.

End Validator.

(** C1, as the program has it. A sequence of one group passes the
    spacing check whatever its category; it passes the sequence check
    exactly when its category is the first of [expectedSequence],
    builtin, and otherwise [Run] returns the not-grouped error. *)
Theorem single_group_checks :
  forall (filename : string) (g : ImportGroup),
    lineBreaks [g] = None /\
    areImportsGrouped [g] = String.eqb (importType g) (Category_name Builtin) /\
    checkGroups filename [g]
    = if String.eqb (importType g) (Category_name Builtin)
      then None
      else Some (ErrNotGrouped filename).
Proof.
  intros filename g.
  assert (E : areImportsGrouped [g] = String.eqb (importType g) builtin).
  { unfold areImportsGrouped. cbn.
    now destruct (String.eqb (importType g) builtin). }
  repeat split; [exact E |].
  unfold checkGroups. rewrite E. simpl.
  now destruct (String.eqb (importType g) builtin).
Qed.

(** C1 fails for a single third-party group: the sequence check rejects
    it, and so does [Run] on a file whose only import is third-party. *)
Lemma single_third_party_group_rejected :
  areImportsGrouped [mkImportGroup 3 3 (Category_name ThirdParty)] = false /\
  Run (fun p => String.eqb p "fmt")
      (fun _ : unit => inl (mkSettings "example.com/app" ["corp.example"]))
      (fun _ => inl (mkFileSet (fun pos => pos),
                     mkFile [GenDecl IMPORT
                               [Spec_Import
                                  (mkImportSpec (quoted "github.com/pkg/errors") 3 3)]]))
      "main.go" tt
  = Returned (Some (ErrNotGrouped "main.go")).
Proof. split; reflexivity. Qed.

(** C9. The sequence check looks at the first four groups only: the
    verdict on a sequence is the verdict on its first four groups, and
    groups put after position 3 never change it. *)
Theorem areImportsGrouped_first_four :
  forall groups more : list ImportGroup,
    (4 <= List.length groups)%nat ->
    areImportsGrouped (groups ++ more) = areImportsGrouped groups /\
    areImportsGrouped groups = areImportsGrouped (firstn 4 groups).
Proof.
  intros groups more Hlen. split; [| apply areImportsGrouped_firstn].
  rewrite (areImportsGrouped_firstn (groups ++ more)).
  rewrite (areImportsGrouped_firstn groups).
  rewrite firstn_app.
  replace (4 - List.length groups)%nat with 0%nat by lia.
  now rewrite firstn_O, app_nil_r.
Qed.

Lemma areImportsGrouped_first_four_witness :
  let groups := [mkImportGroup 1 1 builtin;
                 mkImportGroup 3 3 public_open_source_or_third_party;
                 mkImportGroup 5 5 internal_private;
                 mkImportGroup 7 7 own_module] in
  let more := [mkImportGroup 9 9 builtin; mkImportGroup 11 11 builtin] in
  (4 <= List.length groups)%nat /\
  areImportsGrouped (groups ++ more) = areImportsGrouped groups /\
  areImportsGrouped groups = areImportsGrouped (firstn 4 groups).
Proof.
  intros groups more. split; [simpl; lia |].
  apply (areImportsGrouped_first_four groups more). simpl; lia.
Defined.

(** C3 fails when the category comes back after the fourth group: the
    grouper turns five imports of categories builtin, third-party,
    internal-private, own-module, builtin into five groups, builtin
    comes back at index 4 after other categories, and both checks
    pass. *)
Lemma reappearance_after_fourth_accepted :
  let isBuiltin := fun p => String.eqb p "fmt" || String.eqb p "os" in
  let settings := mkSettings "example.com/app" ["corp.example"] in
  let groups :=
    group isBuiltin settings
      [mkImportRecord "fmt" 3 3;
       mkImportRecord "github.com/pkg/errors" 5 5;
       mkImportRecord "git.corp.example/lib" 7 7;
       mkImportRecord "example.com/app/util" 9 9;
       mkImportRecord "os" 11 11] in
  groups = [mkImportGroup 3 3 builtin;
            mkImportGroup 5 5 public_open_source_or_third_party;
            mkImportGroup 7 7 internal_private;
            mkImportGroup 9 9 own_module;
            mkImportGroup 11 11 builtin] /\
  option_map importType (nth_error groups 0) = Some builtin /\
  option_map importType (nth_error groups 1) <> Some builtin /\
  option_map importType (nth_error groups 4) = Some builtin /\
  areImportsGrouped groups = true /\
  checkGroups "main.go" groups = None.
Proof. cbv zeta. repeat split. discriminate. Qed.

(** C3, as the program has it. When a category appears at index [i], a
    different category at a later index [j], and the first category again
    at an index [k] after [j] that is among the first four ([k < 4]), the
    sequence check fails and [Run] returns the not-grouped error. *)
Theorem reappearance_within_four_rejected :
  forall (groups : list ImportGroup) (i j k : nat) (gi gj gk : ImportGroup)
         (filename : string),
    (i < j)%nat -> (j < k)%nat -> (k < 4)%nat ->
    nth_error groups i = Some gi ->
    nth_error groups j = Some gj ->
    nth_error groups k = Some gk ->
    importType gj <> importType gi ->
    importType gk = importType gi ->
    areImportsGrouped groups = false /\
    checkGroups filename groups = Some (ErrNotGrouped filename).
Proof.
  intros groups i j k gi gj gk filename Hij Hjk Hk Hi _ Hgk _ Hsame.
  assert (E : areImportsGrouped groups = false).
  { destruct (areImportsGrouped groups) eqn:E; [exfalso | reflexivity].
    rewrite areImportsGrouped_spec in E.
    assert (Ei := E i gi Hi ltac:(lia)).
    assert (Ek := E k gk Hgk Hk).
    assert (i = k) by (apply expectedSequence_NoDup; [lia | lia | congruence]).
    lia. }
  split; [exact E |]. unfold checkGroups. now rewrite E.
Qed.

Lemma reappearance_within_four_rejected_witness :
  let groups := [mkImportGroup 3 3 builtin;
                 mkImportGroup 5 5 public_open_source_or_third_party;
                 mkImportGroup 7 7 builtin] in
  areImportsGrouped groups = false /\
  checkGroups "main.go" groups = Some (ErrNotGrouped "main.go").
Proof.
  intros groups.
  apply (reappearance_within_four_rejected groups 0 1 2
           (mkImportGroup 3 3 builtin)
           (mkImportGroup 5 5 public_open_source_or_third_party)
           (mkImportGroup 7 7 builtin) "main.go");
    try lia; try reflexivity.
  simpl. discriminate.
Defined.

(** C4. On a sequence that passes the sequence check, with line numbers
    for which [endLine + 2] does not overflow, the spacing check passes
    exactly when every group starts two lines after the end of the group
    before it; any other distance, zero blank lines as well as two or
    more, fails, and at the first pair [(g, h)] that is not one blank
    line apart [Run] returns the missing-line-break error for the first
    line of [h]. *)
Theorem lineBreaks_exactly_one_blank_line :
  forall (filename : string) (groups : list ImportGroup),
    areImportsGrouped groups = true ->
    Forall endLineFits groups ->
    (checkGroups filename groups = None <-> allOneBlankLine groups) /\
    (forall (i : nat) (g h : ImportGroup),
        nth_error groups i = Some g ->
        nth_error groups (S i) = Some h ->
        startLine h <> endLine g + 2 ->
        (forall (k : nat) (g' h' : ImportGroup),
            (k < i)%nat ->
            nth_error groups k = Some g' ->
            nth_error groups (S k) = Some h' ->
            startLine h' = endLine g' + 2) ->
        checkGroups filename groups
        = Some (ErrMissingLineBreak (startLine h))).
Proof.
  intros filename groups Hseq Hfit.
  unfold checkGroups. rewrite Hseq. cbn [negb].
  destruct groups as [| g0 rest].
  - split.
    + split; [| reflexivity]. intros _ [| i] g h Hg Hh; discriminate Hg.
    + intros [| i] g h Hg; discriminate Hg.
  - rewrite lineBreaks_cons. split.
    + now apply lineBreaks_after_None.
    + intros i g h Hg Hh Hbad Hgood.
      now apply (lineBreaks_after_first g0 rest i g h).
Qed.

Lemma lineBreaks_exactly_one_blank_line_witness :
  let groups := [mkImportGroup 1 2 builtin;
                 mkImportGroup 4 5 public_open_source_or_third_party;
                 mkImportGroup 7 7 internal_private;
                 mkImportGroup 9 10 own_module] in
  areImportsGrouped groups = true /\
  Forall endLineFits groups /\
  (checkGroups "main.go" groups = None <-> allOneBlankLine groups) /\
  (forall (i : nat) (g h : ImportGroup),
      nth_error groups i = Some g ->
      nth_error groups (S i) = Some h ->
      startLine h <> endLine g + 2 ->
      (forall (k : nat) (g' h' : ImportGroup),
          (k < i)%nat ->
          nth_error groups k = Some g' ->
          nth_error groups (S k) = Some h' ->
          startLine h' = endLine g' + 2) ->
      checkGroups "main.go" groups
      = Some (ErrMissingLineBreak (startLine h))).
Proof.
  intros groups.
  assert (Hfit : Forall endLineFits groups)
    by (repeat constructor; unfold int.min, int.max; simpl; lia).
  split; [reflexivity |]. split; [exact Hfit |].
  apply (lineBreaks_exactly_one_blank_line "main.go" groups eq_refl Hfit).
Defined.

(** The two boundary cases of the spacing check, zero blank lines and
    two blank lines, and the accepted case in between. *)
Example lineBreaks_boundary :
  checkGroups "main.go"
    [mkImportGroup 1 2 builtin;
     mkImportGroup 3 4 public_open_source_or_third_party]
  = Some (ErrMissingLineBreak 3) /\
  checkGroups "main.go"
    [mkImportGroup 1 2 builtin;
     mkImportGroup 5 6 public_open_source_or_third_party]
  = Some (ErrMissingLineBreak 5) /\
  checkGroups "main.go"
    [mkImportGroup 1 2 builtin;
     mkImportGroup 4 5 public_open_source_or_third_party]
  = None.
Proof. repeat split. Qed.

(** C6 fails on a file that does not parse: [Run] returns nothing,
    [log.Fatalf] ends the process. *)
Lemma parse_failure_not_returned :
  let outcome :=
    Run (fun _ => false)
        (fun _ : unit => inl (mkSettings "example.com/app" []))
        (fun _ => inr "main.go:1:1: expected 'package', found 'EOF'")
        "main.go" tt in
  outcome = Fatal_FailedToParse "main.go:1:1: expected 'package', found 'EOF'" /\
  ~ exists err, outcome = Returned err.
Proof. split; [reflexivity |]. intros [err H]. discriminate H. Qed.

(** C6, as the program has it. When the settings decode and the file
    does not parse, [Run] ends the process through [log.Fatalf] with the
    parser's error: it returns no value, and the outcome is not a result
    of the grouping and spacing checks, which are not reached. *)
Theorem parse_failure_is_fatal :
  forall (isBuiltinImport : string -> bool) (MetaData : Type)
         (decodeSettings : MetaData -> Settings + string)
         (ParseFile : string -> (FileSet * File) + string)
         (filename : string) (metaData : MetaData)
         (settings : Settings) (err : string),
    decodeSettings metaData = inl settings ->
    ParseFile filename = inr err ->
    Run isBuiltinImport decodeSettings ParseFile filename metaData
    = Fatal_FailedToParse err /\
    forall groups : list ImportGroup,
      Run isBuiltinImport decodeSettings ParseFile filename metaData
      <> Returned (checkGroups filename groups).
Proof.
  intros isB MetaData decode parse filename metaData settings err Hs Hp.
  unfold Run. rewrite Hs, Hp. split; [reflexivity | discriminate].
Qed.

Lemma parse_failure_is_fatal_witness :
  Run (fun _ => false)
      (fun _ : unit => inl (mkSettings "example.com/app" []))
      (fun _ => inr "syntax error")
      "main.go" tt
  = Fatal_FailedToParse "syntax error" /\
  forall groups : list ImportGroup,
    Run (fun _ => false)
        (fun _ : unit => inl (mkSettings "example.com/app" []))
        (fun _ => inr "syntax error")
        "main.go" tt
    <> Returned (checkGroups "main.go" groups).
Proof.
  apply (parse_failure_is_fatal (fun _ => false) unit
           (fun _ => inl (mkSettings "example.com/app" []))
           (fun _ => inr "syntax error")
           "main.go" tt (mkSettings "example.com/app" []) "syntax error");
    reflexivity.
Defined.

(* ================================================================= *)
(** ** The grouper *)

Section GrouperFacts.

Variable isBuiltinImport : string -> bool.
Variable settings : Settings.

Local Abbreviation cat := (category isBuiltinImport settings).
Local Abbreviation visit := (visitRecord isBuiltinImport settings).
Local Abbreviation grp := (group isBuiltinImport settings).
Local Abbreviation allRuns := (runsOf isBuiltinImport settings).
Local Abbreviation grpOf := (groupOfRun isBuiltinImport settings).
Local Abbreviation runCat := (runCategory isBuiltinImport settings).
Local Abbreviation unif := (uniform isBuiltinImport settings).
Local Abbreviation Maximal := (MaximalRuns isBuiltinImport settings).

(** *** The loops over the syntax tree are a fold over the records *)

Lemma rangeSpecs_records (fset : FileSet) (specs : list Spec) (st : LoopState) :
  rangeSpecs isBuiltinImport fset settings specs st
  = option_map (fun rs => fold_left visit rs st) (recordsOfSpecs fset specs).
Proof.
  revert st; induction specs as [| spec specs IH]; intros st; simpl.
  - reflexivity.
  - destruct spec as [importSpec | |]; simpl; try reflexivity.
    destruct (slice (Path_Value importSpec) 1 (len (Path_Value importSpec) - 1));
      [| reflexivity].
    rewrite IH. now destruct (recordsOfSpecs fset specs).
Qed.

Lemma rangeDecls_records (fset : FileSet) (decls : list Decl) (st : LoopState) :
  rangeDecls isBuiltinImport fset settings decls st
  = option_map (fun rs => fold_left visit rs st) (importRecords fset decls).
Proof.
  revert st; induction decls as [| decl decls IH]; intros st; simpl.
  - reflexivity.
  - destruct decl as [[] specs | |]; try apply IH.
    rewrite rangeSpecs_records.
    destruct (recordsOfSpecs fset specs) as [rs |]; simpl; [| reflexivity].
    rewrite IH.
    destruct (importRecords fset decls) as [rs' |]; simpl; [| reflexivity].
    now rewrite fold_left_app.
Qed.

Lemma getImportGroups_group (fset : FileSet) (node : File) :
  getImportGroups isBuiltinImport fset node settings
  = option_map grp (importRecords fset (Decls node)).
Proof.
  unfold getImportGroups. rewrite rangeDecls_records.
  destruct (importRecords fset (Decls node)) as [rs |]; simpl; [| reflexivity].
  unfold grp, closeGroups.
  now destruct (fold_left visit rs ([], None)) as [groups [cur |]].
Qed.

(** *** The fold yields the groups of the runs *)

Lemma runsOf_nonempty (rs : list ImportRecord) :
  Forall (fun run => run <> []) (allRuns rs).
Proof.
  induction rs as [| r rs IH]; simpl; [constructor |].
  destruct (allRuns rs) as [| [| r' run] runs].
  - repeat constructor; discriminate.
  - repeat constructor; discriminate.
  - inversion IH; subst.
    destruct (String.eqb (cat r) (cat r'));
      repeat constructor; try discriminate; assumption.
Qed.

Lemma last_cons_default (A : Type) (a : A) (l : list A) (d d' : A) :
  last (a :: l) d = last (a :: l) d'.
Proof.
  revert a; induction l as [| b l IH]; intros a; [reflexivity |].
  change (last (b :: l) d = last (b :: l) d'). apply IH.
Qed.

Lemma runsOf_cons (r : ImportRecord) (rs : list ImportRecord) :
  map grpOf (allRuns (r :: rs))
  = absorb (grpOf [r]) (map grpOf (allRuns rs)).
Proof.
  pose proof (runsOf_nonempty rs) as Hne. simpl.
  destruct (allRuns rs) as [| [| r' run] runs]; [reflexivity | |].
  - inversion Hne; subst. congruence.
  - cbn [map absorb grpOf importType startLine endLine].
    destruct (String.eqb (cat r) (cat r')); [| reflexivity].
    cbn [map grpOf]. f_equal. f_equal.
    change (last (r :: r' :: run) r) with (last (r' :: run) r).
    f_equal. apply last_cons_default.
Qed.

Lemma absorb_head (g : ImportGroup) (gs : list ImportGroup) :
  exists g' tl, absorb g gs = g' :: tl /\ importType g' = importType g.
Proof.
  destruct gs as [| g1 gs]; simpl; [now exists g, [] |].
  destruct (String.eqb (importType g) (importType g1)); eauto.
Qed.

Lemma absorb_differ (cur g : ImportGroup) (gs : list ImportGroup) :
  String.eqb (importType cur) (importType g) = false ->
  absorb cur (absorb g gs) = cur :: absorb g gs.
Proof.
  intros H. destruct (absorb_head g gs) as (g' & tl & -> & E).
  simpl. now rewrite E, H.
Qed.

Lemma absorb_same (cur g : ImportGroup) (gs : list ImportGroup) :
  String.eqb (importType cur) (importType g) = true ->
  absorb cur (absorb g gs)
  = absorb (mkImportGroup (startLine cur) (endLine g) (importType cur)) gs.
Proof.
  intros H. destruct gs as [| g1 gs]; simpl.
  - now rewrite H.
  - apply String.eqb_eq in H. rewrite H.
    destruct (String.eqb (importType g) (importType g1)) eqn:E; simpl.
    + now rewrite H, String.eqb_refl.
    + now rewrite H, String.eqb_refl.
Qed.

Lemma fold_visitRecord_absorb (rs : list ImportRecord)
    (groups : list ImportGroup) (cur : ImportGroup) :
  closeGroups (fold_left visit rs (groups, Some cur))
  = groups ++ absorb cur (map grpOf (allRuns rs)).
Proof.
  revert groups cur; induction rs as [| r rs IH]; intros groups cur.
  - reflexivity.
  - rewrite runsOf_cons. cbn [fold_left].
    unfold visit at 2, visitRecord, visitImport.
    fold (cat r).
    destruct (String.eqb (importType cur) (cat r)) eqn:E; cbn [negb].
    + rewrite IH. f_equal. symmetry. now apply absorb_same.
    + rewrite IH, <- app_assoc. f_equal. symmetry.
      now apply (absorb_differ cur (grpOf [r])).
Qed.

(** The grouper yields one grp per maximal run, in order. *)
Lemma group_runsOf (rs : list ImportRecord) :
  grp rs = map grpOf (allRuns rs).
Proof.
  destruct rs as [| r rs]; [reflexivity |].
  rewrite runsOf_cons. unfold grp. cbn [fold_left].
  exact (fold_visitRecord_absorb rs [] (grpOf [r])).
Qed.

(** *** [runsOf] cuts the records into their maximal runs *)

Lemma runsOf_concat (rs : list ImportRecord) : List.concat (allRuns rs) = rs.
Proof.
  induction rs as [| r rs IH]; simpl; [reflexivity |].
  pose proof (runsOf_nonempty rs) as Hne.
  destruct (allRuns rs) as [| [| r' run] runs0]; simpl in *.
  - now rewrite <- IH.
  - inversion Hne; subst. congruence.
  - destruct (String.eqb (cat r) (cat r')); simpl; now rewrite <- IH.
Qed.

Lemma unif_singleton (r : ImportRecord) : unif [r].
Proof.
  split; [discriminate |].
  intros a b [<- | []] [<- | []]. reflexivity.
Qed.

Lemma unif_cons (r r' : ImportRecord) (run : list ImportRecord) :
  cat r = cat r' -> unif (r' :: run) -> unif (r :: r' :: run).
Proof.
  intros E [_ H]. split; [discriminate |].
  assert (Hr' : forall a, In a (r' :: run) -> cat a = cat r')
    by (intros a Ha; apply H; [assumption | now left]).
  intros a b [<- | Ha] [<- | Hb]; try reflexivity.
  - rewrite (Hr' b Hb). exact E.
  - rewrite (Hr' a Ha). now symmetry.
  - now apply H.
Qed.

Lemma runsOf_uniform (rs : list ImportRecord) : Forall unif (allRuns rs).
Proof.
  induction rs as [| r rs IH]; simpl; [constructor |].
  destruct (allRuns rs) as [| [| r' run] runs0].
  - constructor; [apply unif_singleton | constructor].
  - constructor; [apply unif_singleton | constructor].
  - inversion IH as [| ? ? Hrun Hruns]; subst.
    destruct (String.eqb_spec (cat r) (cat r')) as [E | E].
    + constructor; [now apply unif_cons | assumption].
    + constructor; [apply unif_singleton | assumption].
Qed.

Lemma runsOf_neighboursDiffer (rs : list ImportRecord) :
  neighboursDiffer (map runCat (allRuns rs)).
Proof.
  induction rs as [| r rs IH]; simpl; [exact I |].
  destruct (allRuns rs) as [| [| r' run] runs0].
  - exact I.
  - exact I.
  - destruct (String.eqb_spec (cat r) (cat r')) as [E | E].
    + cbn [map] in *.
      assert (Hc : runCat (r :: r' :: run) = runCat (r' :: run)) by exact E.
      rewrite Hc. exact IH.
    + cbn [map] in *. split; [exact E | exact IH].
Qed.

Lemma runsOf_MaximalRuns (rs : list ImportRecord) : Maximal rs (allRuns rs).
Proof.
  split; [apply runsOf_concat |].
  split; [apply runsOf_uniform | apply runsOf_neighboursDiffer].
Qed.

(** *** The maximal runs of a sequence are unique *)

Lemma unif_category (run : list ImportRecord) (r : ImportRecord) :
  unif run -> In r run -> cat r = runCat run.
Proof.
  intros [Hne H] Hin. destruct run as [| r0 run]; [contradiction |].
  unfold runCat, runCategory. simpl. apply H; [assumption | now left].
Qed.

(** A run cannot go on into the run that follows it. *)
Lemma run_not_longer (run next d : list ImportRecord)
    (tl : list (list ImportRecord)) (x : ImportRecord)
    (t : list ImportRecord) :
  unif run -> unif next ->
  runCat run <> runCat next ->
  unif (run ++ x :: t) ->
  List.concat (next :: tl) = (x :: t) ++ d ->
  False.
Proof.
  intros Hrun Hnext Hdiff Hlong Hcat.
  destruct next as [| y next]; [now destruct Hnext |].
  simpl in Hcat. injection Hcat as <- _.
  destruct run as [| r0 run]; [now destruct Hrun |].
  apply Hdiff.
  rewrite <- (unif_category _ r0 Hrun) by now left.
  rewrite <- (unif_category _ y Hnext) by now left.
  destruct Hlong as [_ H]. apply H.
  - now left.
  - apply in_or_app. right. now left.
Qed.

Lemma concat_unif_nil (l : list (list ImportRecord)) :
  Forall unif l -> List.concat l = [] -> l = [].
Proof.
  intros H E. destruct l as [| run l]; [reflexivity |].
  inversion H as [| ? ? [Hne _] _]; subst.
  simpl in E. apply app_eq_nil in E as [E _]. contradiction.
Qed.

Lemma neighboursDiffer_tail (c : string) (cs : list string) :
  neighboursDiffer (c :: cs) -> neighboursDiffer cs.
Proof. destruct cs; simpl; [trivial | now intros [_ H]]. Qed.

(** The first run of a cut into maximal runs is the same in any two
    cuts of the same records. *)
Lemma first_run_unique (run run' : list ImportRecord)
    (tl tl' : list (list ImportRecord)) :
  Forall unif (run :: tl) -> neighboursDiffer (map runCat (run :: tl)) ->
  Forall unif (run' :: tl') -> neighboursDiffer (map runCat (run' :: tl')) ->
  List.concat (run :: tl) = List.concat (run' :: tl') ->
  run = run'.
Proof.
  intros Hu Hd Hu' Hd' E.
  inversion Hu as [| ? ? Hrun Htl]; subst.
  inversion Hu' as [| ? ? Hrun' Htl']; subst.
  simpl in E. apply app_eq_app in E as [d [[E1 E2] | [E1 E2]]].
  - destruct d as [| x t]; [now rewrite app_nil_r in E1 |]. exfalso.
    destruct tl' as [| next tl'];
      [simpl in E2; discriminate E2 |].
    inversion Htl' as [| ? ? Hnext _]; subst.
    apply (run_not_longer run' next (List.concat tl) tl' x t);
      try assumption; try (symmetry; assumption).
    now destruct Hd' as [Hd' _].
  - destruct d as [| x t]; [now rewrite app_nil_r in E1 |]. exfalso.
    destruct tl as [| next tl];
      [simpl in E2; discriminate E2 |].
    inversion Htl as [| ? ? Hnext _]; subst.
    apply (run_not_longer run next (List.concat tl') tl x t);
      try assumption; try (symmetry; assumption).
    now destruct Hd as [Hd _].
Qed.

Lemma MaximalRuns_unique (rs : list ImportRecord)
    (l l' : list (list ImportRecord)) :
  Maximal rs l -> Maximal rs l' -> l = l'.
Proof.
  revert rs l'; induction l as [| run tl IH]; intros rs l' (E & Hu & Hd) (E' & Hu' & Hd').
  - simpl in E. subst rs. symmetry. now apply concat_unif_nil.
  - destruct l' as [| run' tl'].
    + rewrite <- E' in E. now apply concat_unif_nil in E.
    + assert (run = run')
        by (apply (first_run_unique run run' tl tl'); try assumption; congruence).
      subst run'. f_equal.
      apply (IH (List.concat tl)).
      * split; [reflexivity |]. split.
        -- now inversion Hu.
        -- exact (neighboursDiffer_tail _ _ Hd).
      * split; [| split].
        -- simpl in E, E'. rewrite <- E in E'. now apply app_inv_head in E'.
        -- now inversion Hu'.
        -- exact (neighboursDiffer_tail _ _ Hd').
Qed.

(** *** Two neighbours of one category count as one record *)

Lemma visitRecord_same_category (st : LoopState) (r1 r2 : ImportRecord) :
  cat r1 = cat r2 ->
  visit (visit st r1) r2
  = visit st (mkImportRecord (path r1) (firstLine r1) (lastLine r2)).
Proof.
  intros E. destruct st as [groups [cur |]];
    unfold visitRecord, visitImport; cbn [path firstLine lastLine];
    fold (cat r1); fold (cat r2); rewrite <- E.
  - destruct (String.eqb (importType cur) (cat r1)) eqn:Ecur;
      cbn [negb importType startLine].
    + now rewrite Ecur.
    + now rewrite String.eqb_refl.
  - cbn [importType startLine]. now rewrite String.eqb_refl.
Qed.

Lemma group_same_category (pre post : list ImportRecord) (r1 r2 : ImportRecord) :
  cat r1 = cat r2 ->
  grp (pre ++ r1 :: r2 :: post)
  = grp (pre ++ mkImportRecord (path r1) (firstLine r1) (lastLine r2) :: post).
Proof.
  intros E. unfold group. rewrite !fold_left_app. cbn [fold_left].
  now rewrite visitRecord_same_category.
Qed.

End GrouperFacts.

(** C7. On the import records of a file, whatever the configuration,
    [getImportGroups] returns one group per maximal run of consecutive
    records of one category, in file order: the runs put end to end are
    the records, every run has one category, neighbouring runs have
    different categories, and there is one such cut only. A group goes
    from the first line of the first record of its run to the last line
    of the last one. No record gives no group. *)
Theorem getImportGroups_maximal_runs :
  forall (isBuiltinImport : string -> bool) (settings : Settings)
         (fset : FileSet) (node : File) (records : list ImportRecord),
    importRecords fset (Decls node) = Some records ->
    exists runs : list (list ImportRecord),
      MaximalRuns isBuiltinImport settings records runs /\
      (forall runs', MaximalRuns isBuiltinImport settings records runs' ->
                     runs' = runs) /\
      getImportGroups isBuiltinImport fset node settings
      = Some (map (groupOfRun isBuiltinImport settings) runs) /\
      group isBuiltinImport settings records
      = map (groupOfRun isBuiltinImport settings) runs /\
      group isBuiltinImport settings [] = [].
Proof.
  intros isB settings fset node records Hrec.
  exists (runsOf isB settings records).
  pose proof (runsOf_MaximalRuns isB settings records) as Hmax.
  split; [exact Hmax |]. split.
  - intros runs' H. now apply (MaximalRuns_unique isB settings records).
  - rewrite getImportGroups_group, Hrec. cbn [option_map].
    now rewrite group_runsOf.
Qed.

Lemma getImportGroups_maximal_runs_witness :
  let isBuiltin := fun p => String.eqb p "fmt" || String.eqb p "os" in
  let settings := mkSettings "example.com/app" ["corp.example"] in
  let fset := mkFileSet (fun pos => pos) in
  let node :=
    mkFile [GenDecl IMPORT
              [Spec_Import (mkImportSpec (quoted "fmt") 4 4);
               Spec_Import (mkImportSpec (quoted "os") 5 5);
               Spec_Import (mkImportSpec (quoted "github.com/pkg/errors") 7 7)];
            FuncDecl;
            GenDecl IMPORT
              [Spec_Import (mkImportSpec (quoted "fmt") 12 12)]] in
  let records := [mkImportRecord "fmt" 4 4; mkImportRecord "os" 5 5;
                  mkImportRecord "github.com/pkg/errors" 7 7;
                  mkImportRecord "fmt" 12 12] in
  importRecords fset (Decls node) = Some records /\
  getImportGroups isBuiltin fset node settings
  = Some [mkImportGroup 4 5 builtin;
          mkImportGroup 7 7 public_open_source_or_third_party;
          mkImportGroup 12 12 builtin] /\
  exists runs : list (list ImportRecord),
    MaximalRuns isBuiltin settings records runs /\
    (forall runs', MaximalRuns isBuiltin settings records runs' -> runs' = runs) /\
    getImportGroups isBuiltin fset node settings
    = Some (map (groupOfRun isBuiltin settings) runs) /\
    group isBuiltin settings records = map (groupOfRun isBuiltin settings) runs /\
    group isBuiltin settings [] = [].
Proof.
  intros isBuiltin settings fset node records.
  split; [reflexivity |]. split; [reflexivity |].
  apply (getImportGroups_maximal_runs isBuiltin settings fset node records).
  reflexivity.
Defined.

(** C10. Only a change of category starts a group. When two records
    that follow each other have one category, [getImportGroups] returns
    the groups it returns when the two are one record from the first
    line of the first to the last line of the second; the blocks in which
    the imports are declared play no part, and neither do the last line
    [a] of the first record and the first line [b] of the second, so the
    checks of [Run] give the same result for any [a] and [b]. *)
Theorem group_boundaries_by_category_only :
  forall (isBuiltinImport : string -> bool) (settings : Settings)
         (fset : FileSet) (node : File)
         (pre post : list ImportRecord) (r1 r2 : ImportRecord)
         (a b : Z) (filename : string),
    importRecords fset (Decls node) = Some (pre ++ r1 :: r2 :: post) ->
    category isBuiltinImport settings r1 = category isBuiltinImport settings r2 ->
    let groups := group isBuiltinImport settings (pre ++ r1 :: r2 :: post) in
    let groups' :=
      group isBuiltinImport settings
        (pre ++ mkImportRecord (path r1) (firstLine r1) a
             :: mkImportRecord (path r2) b (lastLine r2) :: post) in
    getImportGroups isBuiltinImport fset node settings = Some groups /\
    groups
    = group isBuiltinImport settings
        (pre ++ mkImportRecord (path r1) (firstLine r1) (lastLine r2) :: post) /\
    groups = groups' /\
    checkGroups filename groups = checkGroups filename groups'.
Proof.
  intros isB settings fset node pre post r1 r2 a b filename Hrec Hcat groups groups'.
  assert (E : groups = groups').
  { unfold groups, groups'.
    rewrite (group_same_category isB settings pre post r1 r2 Hcat).
    now rewrite (group_same_category isB settings pre post
                   (mkImportRecord (path r1) (firstLine r1) a)
                   (mkImportRecord (path r2) b (lastLine r2)) Hcat). }
  split; [| split; [| split]].
  - rewrite getImportGroups_group, Hrec. reflexivity.
  - now apply group_same_category.
  - exact E.
  - now rewrite E.
Qed.

Lemma group_boundaries_by_category_only_witness :
  let isBuiltin := fun p => String.eqb p "fmt" || String.eqb p "os" in
  let settings := mkSettings "example.com/app" ["corp.example"] in
  let fset := mkFileSet (fun pos => pos) in
  let node :=
    mkFile [GenDecl IMPORT [Spec_Import (mkImportSpec (quoted "fmt") 3 3)];
            GenDecl IMPORT
              [Spec_Import (mkImportSpec (quoted "os") 9 9);
               Spec_Import (mkImportSpec (quoted "github.com/pkg/errors") 11 11)]] in
  let groups :=
    group isBuiltin settings
      [mkImportRecord "fmt" 3 3; mkImportRecord "os" 9 9;
       mkImportRecord "github.com/pkg/errors" 11 11] in
  let groups' :=
    group isBuiltin settings
      [mkImportRecord "fmt" 3 100; mkImportRecord "os" 200 9;
       mkImportRecord "github.com/pkg/errors" 11 11] in
  groups = [mkImportGroup 3 9 builtin;
            mkImportGroup 11 11 public_open_source_or_third_party] /\
  checkGroups "main.go" groups = None /\
  getImportGroups isBuiltin fset node settings = Some groups /\
  groups = group isBuiltin settings
             [mkImportRecord "fmt" 3 9;
              mkImportRecord "github.com/pkg/errors" 11 11] /\
  groups = groups' /\
  checkGroups "main.go" groups = checkGroups "main.go" groups'.
Proof.
  intros isBuiltin settings fset node groups groups'.
  split; [reflexivity |]. split; [reflexivity |].
  apply (group_boundaries_by_category_only isBuiltin settings fset node
           [] [mkImportRecord "github.com/pkg/errors" 11 11]
           (mkImportRecord "fmt" 3 3) (mkImportRecord "os" 9 9)
           100 200 "main.go");
    reflexivity.
Defined.

(* ================================================================= *)
(** ** Further properties of the classifier *)

(** X1. The decision table of [getImportType]: internal-private exactly
    when a configured domain occurs in the path; own-module exactly when
    none occurs and the path starts with [SelfModule]; otherwise the
    standard-library lookup decides between builtin and third-party. The
    lookup plays no part for the two first categories. *)
Theorem getImportType_decision_table :
  forall (isBuiltinImport : string -> bool) (p : string) (settings : Settings),
    let internal :=
      exists domain pre post : string,
        In domain (InternalPrivateDomains settings) /\
        p = (pre ++ domain ++ post)%string in
    let own := exists rest : string, p = (SelfModule settings ++ rest)%string in
    let t := getImportType isBuiltinImport p settings in
    (t = internal_private <-> internal) /\
    (t = own_module <-> ~ internal /\ own) /\
    (t = builtin <-> ~ internal /\ ~ own /\ isBuiltinImport p = true) /\
    (t = public_open_source_or_third_party <->
     ~ internal /\ ~ own /\ isBuiltinImport p = false).
Proof.
  intros isB p settings internal own t.
  assert (Hi : isInternalPrivateImport p settings = true <-> internal).
  { rewrite isInternalPrivateImport_spec. unfold internal. split.
    - intros (domain & Hin & Hc). apply Contains_spec in Hc as (pre & post & Hc).
      now exists domain, pre, post.
    - intros (domain & pre & post & Hin & Hc). exists domain. split; [assumption |].
      apply Contains_spec. now exists pre, post. }
  assert (Ho : strings.HasPrefix p (SelfModule settings) = true <-> own)
    by apply HasPrefix_spec.
  unfold t, getImportType.
  destruct (isInternalPrivateImport p settings).
  - assert (internal) by now apply Hi.
    repeat split; try discriminate; try tauto.
  - assert (~ internal) by (intros H; apply Hi in H; discriminate H).
    destruct (strings.HasPrefix p (SelfModule settings)).
    + assert (own) by now apply Ho.
      repeat split; try discriminate; try tauto.
    + assert (~ own) by (intros H'; apply Ho in H'; discriminate H').
      destruct (isB p); repeat split; try discriminate; try tauto;
        intros (_ & _ & E); discriminate E.
Qed.

(** X2. An empty string among the internal-private domains occurs in
    every path: every path is then classified internal-private, whatever
    [SelfModule] and the standard-library lookup are. *)
Theorem empty_domain_all_internal_private :
  forall (isBuiltinImport : string -> bool) (p : string) (settings : Settings),
    In "" (InternalPrivateDomains settings) ->
    getImportType isBuiltinImport p settings = internal_private.
Proof.
  intros isB p settings Hin. unfold getImportType.
  replace (isInternalPrivateImport p settings) with true; [reflexivity |].
  symmetry. apply isInternalPrivateImport_spec. exists "". split; [assumption |].
  apply Contains_spec. now exists "", p.
Qed.

Lemma empty_domain_all_internal_private_witness :
  getImportType (fun _ => true) "fmt" (mkSettings "example.com/app" ["corp.example"; ""])
  = internal_private.
Proof.
  apply (empty_domain_all_internal_private (fun _ => true) "fmt"
           (mkSettings "example.com/app" ["corp.example"; ""])).
  simpl. right. now left.
Defined.

(* ================================================================= *)
(** ** Further properties of the validator *)

(** X3. The sequence check accepts a sequence exactly when the
    categories of its first four groups are the beginning of
    [expectedSequence] of the same length: a sequence of [n <= 4] groups
    must be the [n] first categories in order, with none left out. *)
Theorem areImportsGrouped_prefix :
  forall groups : list ImportGroup,
    areImportsGrouped groups = true <->
    map importType (firstn 4 groups)
    = firstn (List.length groups) expectedSequence.
Proof.
  intros groups. rewrite areImportsGrouped_firstn.
  destruct groups as [| g1 [| g2 [| g3 [| g4 rest]]]];
    unfold areImportsGrouped; cbn -[String.eqb];
    rewrite ?firstn_nil;
    repeat match goal with
      | |- context [String.eqb ?a ?b] => destruct (String.eqb_spec a b); cbn
      end;
    split; intros H; try reflexivity; try discriminate H; try congruence.
Qed.

Lemma lineBreaks_after_Some (prev : ImportGroup) (rest : list ImportGroup)
    (e : RunError) :
  lineBreaks_after prev rest = Some e ->
  exists (i : nat) (g h : ImportGroup),
    nth_error (prev :: rest) i = Some g /\
    nth_error (prev :: rest) (S i) = Some h /\
    e = ErrMissingLineBreak (startLine h) /\
    ~ lineBreakOk g h /\
    forall (k : nat) (g' h' : ImportGroup),
      (k < i)%nat ->
      nth_error (prev :: rest) k = Some g' ->
      nth_error (prev :: rest) (S k) = Some h' ->
      lineBreakOk g' h'.
Proof.
  revert prev; induction rest as [| g1 rest IH]; intros prev H; simpl in H.
  - discriminate H.
  - destruct (Z.eqb_spec (startLine g1) (int.add (endLine prev) 2)) as [E | E];
      simpl in H.
    + destruct (IH g1 H) as (i & g & h & Hg & Hh & He & Hbad & Hgood).
      exists (S i), g, h. repeat split; try assumption.
      intros [| k] g' h' Hk Hg' Hh'.
      * simpl in Hg', Hh'. injection Hg' as <-. injection Hh' as <-. exact E.
      * apply (Hgood k); [lia | assumption | assumption].
    + injection H as <-. exists 0%nat, prev, g1.
      repeat split; try assumption. intros k g' h' Hk. lia.
Qed.

(** X4. What the two checks report. An error of [checkGroups] is either
    the not-grouped error for the file checked, and then the sequence
    check failed, or the missing-line-break error for the first line of
    a group [h] that has a group [g] before it, and then the sequence
    check passed, [h] does not start at [endLine g + 2] as the program
    computes it, and every earlier pair does. The first group's line is
    never reported for a gap before it, and no other error comes out of
    the checks. *)
Theorem checkGroups_error_sound :
  forall (filename : string) (groups : list ImportGroup) (e : RunError),
    checkGroups filename groups = Some e ->
    (e = ErrNotGrouped filename /\ areImportsGrouped groups = false) \/
    (areImportsGrouped groups = true /\
     exists (i : nat) (g h : ImportGroup),
       nth_error groups i = Some g /\
       nth_error groups (S i) = Some h /\
       e = ErrMissingLineBreak (startLine h) /\
       ~ lineBreakOk g h /\
       forall (k : nat) (g' h' : ImportGroup),
         (k < i)%nat ->
         nth_error groups k = Some g' ->
         nth_error groups (S k) = Some h' ->
         lineBreakOk g' h').
Proof.
  intros filename groups e H. unfold checkGroups in H.
  destruct (areImportsGrouped groups); cbn [negb] in H.
  - right. split; [reflexivity |].
    destruct groups as [| g0 rest]; [discriminate H |].
    rewrite lineBreaks_cons in H. now apply lineBreaks_after_Some.
  - left. injection H as <-. now split.
Qed.

Lemma checkGroups_error_sound_witness :
  let groups := [mkImportGroup 1 2 builtin;
                 mkImportGroup 4 4 public_open_source_or_third_party;
                 mkImportGroup 5 6 internal_private] in
  let e := ErrMissingLineBreak 5 in
  (e = ErrNotGrouped "main.go" /\ areImportsGrouped groups = false) \/
  (areImportsGrouped groups = true /\
   exists (i : nat) (g h : ImportGroup),
     nth_error groups i = Some g /\
     nth_error groups (S i) = Some h /\
     e = ErrMissingLineBreak (startLine h) /\
     ~ lineBreakOk g h /\
     forall (k : nat) (g' h' : ImportGroup),
       (k < i)%nat ->
       nth_error groups k = Some g' ->
       nth_error groups (S k) = Some h' ->
       lineBreakOk g' h').
Proof.
  intros groups e.
  apply (checkGroups_error_sound "main.go" groups e). reflexivity.
Defined.

(* ================================================================= *)
(** ** Further properties of the grouper *)

Section GrouperMore.

Variable isBuiltinImport : string -> bool.
Variable settings : Settings.

Local Abbreviation cat := (category isBuiltinImport settings).
Local Abbreviation visit := (visitRecord isBuiltinImport settings).
Local Abbreviation grp := (group isBuiltinImport settings).
Local Abbreviation allRuns := (runsOf isBuiltinImport settings).
Local Abbreviation grpOf := (groupOfRun isBuiltinImport settings).
Local Abbreviation runCat := (runCategory isBuiltinImport settings).
Local Abbreviation Maximal := (MaximalRuns isBuiltinImport settings).

Lemma getImportType_cases (p : string) :
  exists c : Category,
    getImportType isBuiltinImport p settings = Category_name c.
Proof.
  unfold getImportType.
  destruct (isInternalPrivateImport p settings); [now exists InternalPrivate |].
  destruct (strings.HasPrefix p (SelfModule settings)); [now exists OwnModule |].
  destruct (isBuiltinImport p); [now exists Builtin | now exists ThirdParty].
Qed.

(** The groups of [r :: rs] are the groups of [rs] with the group of
    [r] put in front. *)
Lemma group_cons (r : ImportRecord) (rs : list ImportRecord) :
  grp (r :: rs) = absorb (grpOf [r]) (grp rs).
Proof. now rewrite !group_runsOf, runsOf_cons. Qed.

Lemma absorb_head_start (g : ImportGroup) (gs : list ImportGroup) :
  exists g' tl,
    absorb g gs = g' :: tl /\
    importType g' = importType g /\ startLine g' = startLine g.
Proof.
  destruct gs as [| g1 gs]; simpl; [now exists g, [] |].
  destruct (String.eqb (importType g) (importType g1)); eauto.
Qed.

(** The first group starts at the first record and has its category. *)
Lemma group_head (r : ImportRecord) (rs : list ImportRecord) :
  exists g tl,
    grp (r :: rs) = g :: tl /\
    importType g = cat r /\ startLine g = firstLine r.
Proof.
  rewrite group_cons.
  destruct (absorb_head_start (grpOf [r]) (grp rs)) as (g & tl & E & Ht & Hs).
  now exists g, tl.
Qed.

Lemma absorb_length (g : ImportGroup) (gs : list ImportGroup) :
  (List.length (absorb g gs) <= S (List.length gs))%nat.
Proof.
  destruct gs as [| g1 gs]; simpl; [lia |].
  destruct (String.eqb (importType g) (importType g1)); simpl; lia.
Qed.

Lemma group_length (rs : list ImportRecord) :
  (List.length (grp rs) <= List.length rs)%nat.
Proof.
  induction rs as [| r rs IH]; [simpl; lia |].
  rewrite group_cons. pose proof (absorb_length (grpOf [r]) (grp rs)).
  cbn [List.length]. lia.
Qed.

Lemma group_categories (rs : list ImportRecord) :
  Forall (fun g => exists c : Category, importType g = Category_name c) (grp rs).
Proof.
  induction rs as [| r rs IH]; [constructor |].
  rewrite group_cons. destruct (grp rs) as [| g1 gs]; simpl.
  - constructor; [apply getImportType_cases | constructor].
  - inversion IH; subst.
    destruct (String.eqb (cat r) (importType g1)).
    + constructor; [apply getImportType_cases | assumption].
    + constructor; [apply getImportType_cases | assumption].
Qed.

Lemma group_neighboursDiffer (rs : list ImportRecord) :
  neighboursDiffer (map importType (grp rs)).
Proof.
  rewrite group_runsOf, map_map.
  exact (runsOf_neighboursDiffer isBuiltinImport settings rs).
Qed.

Lemma absorb_types (g g' : ImportGroup) (gs gs' : list ImportGroup) :
  importType g = importType g' ->
  map importType gs = map importType gs' ->
  map importType (absorb g gs) = map importType (absorb g' gs').
Proof.
  intros E H. destruct gs as [| g1 gs], gs' as [| g1' gs']; try discriminate H.
  - simpl. now rewrite E.
  - simpl in H. injection H as E1 H. simpl. rewrite <- E, <- E1.
    destruct (String.eqb (importType g) (importType g1)); simpl; congruence.
Qed.

(** X6. The categories of the groups depend on the categories of the
    records only: two sequences of records with the same sequence of
    categories, whatever their paths and lines, give as many groups,
    with the same categories in the same order. *)
Lemma group_types (rs rs' : list ImportRecord) :
  map cat rs = map cat rs' ->
  map importType (grp rs) = map importType (grp rs').
Proof.
  revert rs'; induction rs as [| r rs IH]; intros [| r' rs'] H;
    try discriminate H; [reflexivity |].
  simpl in H. injection H as E H.
  rewrite !group_cons. apply absorb_types; [exact E | now apply IH].
Qed.

Lemma visit_current (st : LoopState) (r : ImportRecord) :
  exists groups cur,
    visit st r = (groups, Some cur) /\ importType cur = cat r.
Proof.
  destruct st as [groups [cur |]]; unfold visitRecord, visitImport; fold (cat r).
  - destruct (String.eqb_spec (importType cur) (cat r)) as [E | E]; cbn [negb].
    + now eexists _, _.
    + now eexists _, _.
  - now eexists _, _.
Qed.

(** X7. A change of category cuts the grouping in two: when a record
    and the next one have different categories, the groups of the whole
    sequence are the groups of the records up to the first, followed by
    the groups of the records from the second on. *)
Lemma group_split (rs1 rs2 : list ImportRecord) (r1 r2 : ImportRecord) :
  cat r1 <> cat r2 ->
  grp (rs1 ++ r1 :: r2 :: rs2) = grp (rs1 ++ [r1]) ++ grp (r2 :: rs2).
Proof.
  intros Hdiff.
  replace (rs1 ++ r1 :: r2 :: rs2) with ((rs1 ++ [r1]) ++ r2 :: rs2)
    by now rewrite <- app_assoc.
  unfold group at 1 2. rewrite (fold_left_app _ (rs1 ++ [r1])).
  rewrite (fold_left_app _ rs1 [r1]). cbn [fold_left].
  destruct (visit_current (fold_left visit rs1 ([], None)) r1)
    as (groups & cur & -> & Hcur).
  change (fold_left visit rs2 (visit (groups, Some cur) r2))
    with (fold_left visit (r2 :: rs2) (groups, Some cur)).
  rewrite fold_visitRecord_absorb, <- group_runsOf.
  cbn [closeGroups]. rewrite <- app_assoc. f_equal.
  destruct (group_head r2 rs2) as (g & tl & -> & Hg & _).
  simpl. rewrite Hcur, Hg.
  destruct (String.eqb_spec (cat r1) (cat r2)); [contradiction | reflexivity].
Qed.

(** Records of one category make one run. *)
Lemma group_one_category (r : ImportRecord) (rest : list ImportRecord) :
  (forall r', In r' rest -> cat r' = cat r) ->
  grp (r :: rest)
  = [mkImportGroup (firstLine r) (lastLine (last rest r)) (cat r)].
Proof.
  intros Hsame.
  assert (Hmax : Maximal (r :: rest) [r :: rest]).
  { split; [simpl; now rewrite app_nil_r |]. split; [| exact I].
    constructor; [| constructor]. split; [discriminate |].
    assert (H : forall a, In a (r :: rest) -> cat a = cat r)
      by (intros a [<- | Ha]; [reflexivity | now apply Hsame]).
    intros a b Ha Hb. now rewrite (H a Ha), (H b Hb). }
  rewrite group_runsOf.
  rewrite <- (MaximalRuns_unique isBuiltinImport settings (r :: rest)
                [r :: rest] (allRuns (r :: rest)) Hmax
                (runsOf_MaximalRuns isBuiltinImport settings (r :: rest))).
  cbn [map groupOfRun]. do 3 f_equal.
  destruct rest as [| r' rest']; [reflexivity |].
  change (last (r :: r' :: rest') r) with (last (r' :: rest') r). reflexivity.
Qed.

(** X9. Groups keep the line order of the records. When every record
    ends no earlier than it starts and each record starts at least [d]
    lines ([d >= 0]) after the record before it ends, every group ends
    no earlier than it starts and each group starts at least [d] lines
    after the group before it ends: with [d = 1] the groups do not
    overlap. *)
Lemma group_apart (d : Z) (rs : list ImportRecord) :
  0 <= d -> recordsApart d rs -> groupsApart d (grp rs).
Proof.
  intros Hd. induction rs as [| r rs IH]; intros Hrs; [exact I |].
  destruct Hrs as (Hr & Hnext & Hrest). specialize (IH Hrest).
  rewrite group_cons. destruct rs as [| r' rs'].
  - simpl. repeat split. exact Hr.
  - destruct (group_head r' rs') as (g & tl & E & _ & Hstart).
    rewrite E in *. destruct IH as (Hg & Hgnext & Hgrest).
    cbn [absorb groupOfRun importType startLine endLine last].
    destruct (String.eqb (cat r) (importType g)).
    + cbn [groupsApart startLine endLine]. repeat split; try assumption. lia.
    + cbn [groupsApart startLine endLine]. repeat split; try assumption. lia.
Qed.

(** A sequence whose first group is not builtin fails the sequence
    check. *)
Lemma areImportsGrouped_head (g : ImportGroup) (tl : list ImportGroup) :
  importType g <> builtin -> areImportsGrouped (g :: tl) = false.
Proof.
  intros H. destruct (areImportsGrouped (g :: tl)) eqn:E; [exfalso | reflexivity].
  rewrite areImportsGrouped_spec in E.
  apply H. exact (E 0%nat g eq_refl ltac:(lia)).
Qed.

End GrouperMore.

Lemma group_types_witness :
  let isBuiltin := fun p => String.eqb p "fmt" || String.eqb p "os" in
  let settings := mkSettings "example.com/app" ["corp.example"] in
  map importType
    (group isBuiltin settings
       [mkImportRecord "fmt" 3 3; mkImportRecord "os" 4 4;
        mkImportRecord "example.com/app/a" 6 6])
  = map importType
      (group isBuiltin settings
         [mkImportRecord "os" 10 12; mkImportRecord "fmt" 40 41;
          mkImportRecord "example.com/app/b/c" 7 7]).
Proof.
  intros isBuiltin settings.
  apply (group_types isBuiltin settings). reflexivity.
Defined.

Lemma group_split_witness :
  let isBuiltin := fun p => String.eqb p "fmt" || String.eqb p "os" in
  let settings := mkSettings "example.com/app" ["corp.example"] in
  group isBuiltin settings
    ([mkImportRecord "fmt" 3 3] ++ mkImportRecord "os" 4 4
       :: mkImportRecord "github.com/pkg/errors" 6 6
       :: [mkImportRecord "github.com/x/y" 7 7; mkImportRecord "fmt" 9 9])
  = group isBuiltin settings
      ([mkImportRecord "fmt" 3 3] ++ [mkImportRecord "os" 4 4])
    ++ group isBuiltin settings
         (mkImportRecord "github.com/pkg/errors" 6 6
            :: [mkImportRecord "github.com/x/y" 7 7; mkImportRecord "fmt" 9 9]).
Proof.
  intros isBuiltin settings.
  apply (group_split isBuiltin settings). simpl. discriminate.
Defined.

Lemma group_apart_witness :
  let isBuiltin := fun p => String.eqb p "fmt" || String.eqb p "os" in
  let settings := mkSettings "example.com/app" ["corp.example"] in
  groupsApart 1
    (group isBuiltin settings
       [mkImportRecord "fmt" 3 3; mkImportRecord "os" 4 4;
        mkImportRecord "github.com/pkg/errors" 6 7;
        mkImportRecord "example.com/app/a" 9 9]).
Proof.
  intros isBuiltin settings.
  apply (group_apart isBuiltin settings 1); [lia |].
  simpl. repeat split; lia.
Defined.

(** X5. What every result of the grouper satisfies: two groups that
    follow each other have different categories, every group has one of
    the four categories, there are at most as many groups as records,
    and there is no group exactly when there is no record. *)
Theorem group_output_invariants :
  forall (isBuiltinImport : string -> bool) (settings : Settings)
         (records : list ImportRecord),
    let groups := group isBuiltinImport settings records in
    neighboursDiffer (map importType groups) /\
    Forall (fun g => exists c : Category, importType g = Category_name c) groups /\
    (List.length groups <= List.length records)%nat /\
    (groups = [] <-> records = []).
Proof.
  intros isB settings records groups. unfold groups.
  split; [apply group_neighboursDiffer |].
  split; [apply group_categories |].
  split; [apply group_length |].
  split.
  - intros E. destruct records as [| r rs]; [reflexivity |].
    destruct (group_head isB settings r rs) as (g & tl & Hg & _).
    rewrite Hg in E. discriminate E.
  - now intros ->.
Qed.

(** X8. Imports of one category make one group, from the first line of
    the first to the last line of the last, whatever lines lie between
    them; the spacing check has nothing to compare, and the checks pass
    exactly when that category is builtin. *)
Theorem one_category_one_group :
  forall (isBuiltinImport : string -> bool) (settings : Settings)
         (filename : string) (r : ImportRecord) (rest : list ImportRecord),
    (forall r', In r' rest ->
                category isBuiltinImport settings r'
                = category isBuiltinImport settings r) ->
    group isBuiltinImport settings (r :: rest)
    = [mkImportGroup (firstLine r) (lastLine (last rest r))
         (category isBuiltinImport settings r)] /\
    checkGroups filename (group isBuiltinImport settings (r :: rest))
    = if String.eqb (category isBuiltinImport settings r) builtin
      then None
      else Some (ErrNotGrouped filename).
Proof.
  intros isB settings filename r rest Hsame.
  rewrite (group_one_category isB settings r rest Hsame).
  split; [reflexivity |].
  unfold checkGroups, areImportsGrouped. cbn.
  now destruct (String.eqb (category isB settings r) builtin).
Qed.

Lemma one_category_one_group_witness :
  let isBuiltin := fun p => String.eqb p "fmt" || String.eqb p "os" in
  let settings := mkSettings "example.com/app" ["corp.example"] in
  let r := mkImportRecord "fmt" 3 3 in
  let rest := [mkImportRecord "os" 10 10; mkImportRecord "fmt" 30 31] in
  group isBuiltin settings (r :: rest)
  = [mkImportGroup 3 31 (category isBuiltin settings r)] /\
  checkGroups "main.go" (group isBuiltin settings (r :: rest))
  = if String.eqb (category isBuiltin settings r) builtin
    then None
    else Some (ErrNotGrouped "main.go").
Proof.
  intros isBuiltin settings r rest.
  apply (one_category_one_group isBuiltin settings "main.go" r rest).
  intros r' [<- | [<- | []]]; reflexivity.
Defined.

(** X10. The first import decides: when the first import of a file is
    not builtin, the sequence check fails whatever follows, and the
    checks report the file as not grouped. *)
Theorem first_import_not_builtin_rejected :
  forall (isBuiltinImport : string -> bool) (settings : Settings)
         (filename : string) (r : ImportRecord) (rest : list ImportRecord),
    category isBuiltinImport settings r <> builtin ->
    checkGroups filename (group isBuiltinImport settings (r :: rest))
    = Some (ErrNotGrouped filename).
Proof.
  intros isB settings filename r rest Hcat.
  destruct (group_head isB settings r rest) as (g & tl & -> & Hg & _).
  unfold checkGroups. rewrite areImportsGrouped_head; [reflexivity |].
  now rewrite Hg.
Qed.

Lemma first_import_not_builtin_rejected_witness :
  checkGroups "main.go"
    (group (fun p => String.eqb p "fmt")
       (mkSettings "example.com/app" ["corp.example"])
       (mkImportRecord "github.com/pkg/errors" 3 3
          :: [mkImportRecord "fmt" 5 5]))
  = Some (ErrNotGrouped "main.go").
Proof.
  apply (first_import_not_builtin_rejected (fun p => String.eqb p "fmt")
           (mkSettings "example.com/app" ["corp.example"]) "main.go"
           (mkImportRecord "github.com/pkg/errors" 3 3)
           [mkImportRecord "fmt" 5 5]).
  simpl. discriminate.
Defined.

(* ================================================================= *)
(** ** Further properties of the reading of the syntax tree and of [Run] *)

Section SyntaxFacts.

Variable fset : FileSet.

Lemma slice_delimiters (a b : ascii) (p : string) :
  let v := String a (p ++ String b EmptyString)%string in
  slice v 1 (len v - 1) = Some p.
Proof.
  intros v. unfold slice, len, v. cbn [String.length].
  rewrite length_append. cbn [String.length].
  replace (Z.of_nat (S (String.length p + 1)) - 1)
    with (Z.of_nat (String.length p) + 1) by lia.
  replace ((0 <=? 1)
           && (1 <=? Z.of_nat (String.length p) + 1)
           && (Z.of_nat (String.length p) + 1
               <=? Z.of_nat (S (String.length p + 1))))
    with true
    by (symmetry; rewrite !andb_true_iff, !Z.leb_le; lia).
  replace (Z.of_nat (String.length p) + 1 - 1)
    with (Z.of_nat (String.length p)) by lia.
  rewrite Nat2Z.id. change (Z.to_nat 1) with 1%nat. cbn [substring].
  now rewrite substring_0_append.
Qed.

Lemma slice_unquote_Some (v : string) :
  (exists p, slice v 1 (len v - 1) = Some p) <-> 2 <= len v.
Proof.
  unfold slice.
  destruct ((0 <=? 1) && (1 <=? len v - 1) && (len v - 1 <=? len v)) eqn:E.
  - rewrite !andb_true_iff, !Z.leb_le in E. split; [lia | eauto].
  - split; [intros [p H]; discriminate H |]. intros H.
    rewrite !andb_false_iff, !Z.leb_gt in E. lia.
Qed.

Lemma recordOfSpec_Some (spec : Spec) :
  (exists r, recordOfSpec fset spec = Some r) <-> importSpecOk spec.
Proof.
  destruct spec as [importSpec | |]; simpl.
  - rewrite <- slice_unquote_Some.
    destruct (slice (Path_Value importSpec) 1 (len (Path_Value importSpec) - 1));
      split; intros [x H]; try discriminate H; eauto.
  - split; [intros [r H]; discriminate H | contradiction].
  - split; [intros [r H]; discriminate H | contradiction].
Qed.

Lemma recordsOfSpecs_Some (specs : list Spec) :
  (exists rs, recordsOfSpecs fset specs = Some rs) <-> Forall importSpecOk specs.
Proof.
  induction specs as [| spec specs IH]; simpl.
  - split; [constructor | eauto].
  - split.
    + intros [rs H].
      destruct (recordOfSpec fset spec) as [r |] eqn:Er; [| discriminate H].
      destruct (recordsOfSpecs fset specs) as [rs' |]; [| discriminate H].
      constructor; [apply recordOfSpec_Some | apply IH]; eauto.
    + intros H. inversion H as [| ? ? Hs Hrest]; subst.
      apply recordOfSpec_Some in Hs as [r ->]. apply IH in Hrest as [rs ->].
      eauto.
Qed.

Lemma recordsOfSpecs_app (specs specs' : list Spec) :
  recordsOfSpecs fset (specs ++ specs')
  = match recordsOfSpecs fset specs, recordsOfSpecs fset specs' with
    | Some rs, Some rs' => Some (rs ++ rs')
    | _, _ => None
    end.
Proof.
  induction specs as [| spec specs IH]; simpl.
  - now destruct (recordsOfSpecs fset specs').
  - rewrite IH. destruct (recordOfSpec fset spec); [| reflexivity].
    destruct (recordsOfSpecs fset specs); [| reflexivity].
    now destruct (recordsOfSpecs fset specs').
Qed.

(** The records of a file are the records of its import specs. *)
Lemma importRecords_importSpecs (decls : list Decl) :
  importRecords fset decls = recordsOfSpecs fset (importSpecs decls).
Proof.
  induction decls as [| decl decls IH]; [reflexivity |].
  destruct decl as [[] specs | |]; simpl; try exact IH.
  now rewrite recordsOfSpecs_app, IH.
Qed.

Lemma importRecords_Some (decls : list Decl) :
  (exists rs, importRecords fset decls = Some rs) <-> Forall declOk decls.
Proof.
  induction decls as [| decl decls IH]; simpl.
  - split; [constructor | eauto].
  - destruct decl as [[] specs | |];
      try (rewrite IH; split;
           [intros H; constructor; [exact I | exact H]
           | intros H; now inversion H]).
    split.
    + intros [rs H].
      destruct (recordsOfSpecs fset specs) as [rs1 |] eqn:E1; [| discriminate H].
      destruct (importRecords fset decls) as [rs2 |]; [| discriminate H].
      constructor; [apply recordsOfSpecs_Some | apply IH]; eauto.
    + intros H. inversion H as [| ? ? Hs Hrest]; subst.
      apply recordsOfSpecs_Some in Hs as [rs1 ->]. apply IH in Hrest as [rs2 ->].
      eauto.
Qed.

End SyntaxFacts.

(** X12. The path that is classified is the literal of the import spec
    without its first and its last byte, whatever these two bytes are
    (double quotes, or the back quotes of a raw string literal), and the
    lines of the group come from the positions of the spec through the
    file set. *)
Theorem rangeSpecs_strips_delimiters :
  forall (isBuiltinImport : string -> bool) (fset : FileSet) (settings : Settings)
         (a b : ascii) (p : string) (pos end_ : Z) (rest : list Spec)
         (st : LoopState),
    rangeSpecs isBuiltinImport fset settings
      (Spec_Import (mkImportSpec (String a (p ++ String b EmptyString)) pos end_)
         :: rest) st
    = rangeSpecs isBuiltinImport fset settings rest
        (visitImport isBuiltinImport settings st p
           (Position_Line fset pos) (Position_Line fset end_)).
Proof.
  intros isB fset settings a b p pos end_ rest st.
  cbn [rangeSpecs Path_Value Pos End_].
  now rewrite (slice_delimiters a b p).
Qed.

(** X13. [getImportGroups] returns groups, and does not panic, exactly
    when every spec of every import declaration is an import spec whose
    literal is at least two bytes long; declarations that are not import
    declarations are never looked into. *)
Theorem getImportGroups_returns_iff :
  forall (isBuiltinImport : string -> bool) (fset : FileSet) (node : File)
         (settings : Settings),
    (exists groups,
        getImportGroups isBuiltinImport fset node settings = Some groups) <->
    Forall declOk (Decls node).
Proof.
  intros isB fset node settings.
  rewrite getImportGroups_group, <- (importRecords_Some fset).
  destruct (importRecords fset (Decls node)) as [rs |]; simpl.
  - split; eauto.
  - split; intros [x H]; discriminate H.
Qed.

(** X14. Only the import specs count, in their order: the groups of a
    file are the groups of the file that has one import declaration
    with all the import specs, so other declarations between import
    declarations and the way imports are spread over declarations
    change nothing, panics included. *)
Theorem getImportGroups_importSpecs :
  forall (isBuiltinImport : string -> bool) (fset : FileSet) (node : File)
         (settings : Settings),
    getImportGroups isBuiltinImport fset node settings
    = getImportGroups isBuiltinImport fset
        (mkFile [GenDecl IMPORT (importSpecs (Decls node))]) settings.
Proof.
  intros isB fset node settings.
  rewrite !getImportGroups_group, !importRecords_importSpecs.
  cbn [Decls importSpecs]. now rewrite app_nil_r.
Qed.

(** X15. A file that parses and has no import spec passes: [Run]
    returns a nil error, whatever the settings and the other
    declarations of the file. *)
Theorem Run_no_imports :
  forall (isBuiltinImport : string -> bool) (MetaData : Type)
         (decodeSettings : MetaData -> Settings + string)
         (ParseFile : string -> (FileSet * File) + string)
         (filename : string) (metaData : MetaData)
         (settings : Settings) (fset : FileSet) (node : File),
    decodeSettings metaData = inl settings ->
    ParseFile filename = inl (fset, node) ->
    importSpecs (Decls node) = [] ->
    Run isBuiltinImport decodeSettings ParseFile filename metaData
    = Returned None.
Proof.
  intros isB MetaData decode parse filename metaData settings fset node Hs Hp Hnone.
  unfold Run. rewrite Hs, Hp.
  now rewrite getImportGroups_group, importRecords_importSpecs, Hnone.
Qed.

Lemma Run_no_imports_witness :
  Run (fun _ => false)
      (fun _ : unit => inl (mkSettings "" []))
      (fun _ => inl (mkFileSet (fun pos => pos),
                     mkFile [GenDecl VAR [Spec_Value]; GenDecl IMPORT []; FuncDecl]))
      "main.go" tt
  = Returned None.
Proof.
  apply (Run_no_imports (fun _ => false) unit
           (fun _ => inl (mkSettings "" []))
           (fun _ => inl (mkFileSet (fun pos => pos),
                          mkFile [GenDecl VAR [Spec_Value]; GenDecl IMPORT []; FuncDecl]))
           "main.go" tt (mkSettings "" []) (mkFileSet (fun pos => pos))
           (mkFile [GenDecl VAR [Spec_Value]; GenDecl IMPORT []; FuncDecl]));
    reflexivity.
Defined.

(** X11. With an empty [SelfModule], no file with an import passes:
    when the settings decode with an empty [SelfModule] and the file
    parses and has at least one import, [Run] returns the not-grouped
    error, whatever the imports and their layout are. *)
Theorem Run_empty_SelfModule_rejects :
  forall (isBuiltinImport : string -> bool) (MetaData : Type)
         (decodeSettings : MetaData -> Settings + string)
         (ParseFile : string -> (FileSet * File) + string)
         (filename : string) (metaData : MetaData)
         (settings : Settings) (fset : FileSet) (node : File)
         (r : ImportRecord) (rest : list ImportRecord),
    decodeSettings metaData = inl settings ->
    ParseFile filename = inl (fset, node) ->
    SelfModule settings = "" ->
    importRecords fset (Decls node) = Some (r :: rest) ->
    Run isBuiltinImport decodeSettings ParseFile filename metaData
    = Returned (Some (ErrNotGrouped filename)).
Proof.
  intros isB MetaData decode parse filename metaData settings fset node r rest
         Hs Hp Hempty Hrec.
  unfold Run. rewrite Hs, Hp, getImportGroups_group, Hrec. cbn [option_map].
  f_equal.
  destruct (group_head isB settings r rest) as (g & tl & -> & Hg & _).
  unfold checkGroups. rewrite areImportsGrouped_head; [reflexivity |].
  rewrite Hg. unfold category.
  destruct (getImportType_SelfModule_empty isB (path r) settings Hempty) as [E | E];
    rewrite E; discriminate.
Qed.

Lemma Run_empty_SelfModule_rejects_witness :
  Run (fun p => String.eqb p "fmt")
      (fun _ : unit => inl (mkSettings "" []))
      (fun _ => inl (mkFileSet (fun pos => pos),
                     mkFile [GenDecl IMPORT
                               [Spec_Import (mkImportSpec (quoted "fmt") 3 3)]]))
      "main.go" tt
  = Returned (Some (ErrNotGrouped "main.go")).
Proof.
  apply (Run_empty_SelfModule_rejects (fun p => String.eqb p "fmt") unit
           (fun _ => inl (mkSettings "" []))
           (fun _ => inl (mkFileSet (fun pos => pos),
                          mkFile [GenDecl IMPORT
                                    [Spec_Import (mkImportSpec (quoted "fmt") 3 3)]]))
           "main.go" tt (mkSettings "" []) (mkFileSet (fun pos => pos))
           (mkFile [GenDecl IMPORT [Spec_Import (mkImportSpec (quoted "fmt") 3 3)]])
           (mkImportRecord "fmt" 3 3) []);
    reflexivity.
Defined.

(** X16. When [Run] accepts. For settings that decode and a file that
    parses and is read without a panic, with line numbers for which
    [endLine + 2] does not overflow, [Run] returns a nil error exactly
    when the groups of the file pass the sequence check and every group
    starts two lines after the end of the group before it. *)
Theorem Run_accepts_iff :
  forall (isBuiltinImport : string -> bool) (MetaData : Type)
         (decodeSettings : MetaData -> Settings + string)
         (ParseFile : string -> (FileSet * File) + string)
         (filename : string) (metaData : MetaData)
         (settings : Settings) (fset : FileSet) (node : File)
         (records : list ImportRecord),
    decodeSettings metaData = inl settings ->
    ParseFile filename = inl (fset, node) ->
    importRecords fset (Decls node) = Some records ->
    Forall endLineFits (group isBuiltinImport settings records) ->
    (Run isBuiltinImport decodeSettings ParseFile filename metaData
     = Returned None <->
     areImportsGrouped (group isBuiltinImport settings records) = true /\
     allOneBlankLine (group isBuiltinImport settings records)).
Proof.
  intros isB MetaData decode parse filename metaData settings fset node records
         Hs Hp Hrec Hfit.
  unfold Run. rewrite Hs, Hp, getImportGroups_group, Hrec. cbn [option_map].
  unfold checkGroups.
  destruct (areImportsGrouped (group isB settings records)); cbn [negb].
  - destruct (group isB settings records) as [| g0 gs].
    + split; [intros _ | reflexivity]. split; [reflexivity |].
      intros [| i] g h Hg; discriminate Hg.
    + rewrite lineBreaks_cons.
      rewrite <- (lineBreaks_after_None g0 gs Hfit). split.
      * intros H. injection H as H. now split.
      * intros [_ H]. now rewrite H.
  - split; [discriminate | intros [H _]; discriminate H].
Qed.

Lemma Run_accepts_iff_witness :
  let isBuiltin := fun p => String.eqb p "fmt" || String.eqb p "os" in
  let settings := mkSettings "example.com/app" ["corp.example"] in
  let fset := mkFileSet (fun pos => pos) in
  let node :=
    mkFile [GenDecl IMPORT
              [Spec_Import (mkImportSpec (quoted "fmt") 4 4);
               Spec_Import (mkImportSpec (quoted "os") 5 5);
               Spec_Import (mkImportSpec (quoted "github.com/pkg/errors") 7 7);
               Spec_Import (mkImportSpec (quoted "git.corp.example/lib") 9 9);
               Spec_Import (mkImportSpec (quoted "example.com/app/util") 11 11)]] in
  let records := [mkImportRecord "fmt" 4 4; mkImportRecord "os" 5 5;
                  mkImportRecord "github.com/pkg/errors" 7 7;
                  mkImportRecord "git.corp.example/lib" 9 9;
                  mkImportRecord "example.com/app/util" 11 11] in
  let outcome :=
    Run isBuiltin (fun _ : unit => inl settings) (fun _ => inl (fset, node))
      "main.go" tt in
  outcome = Returned None /\
  (outcome = Returned None <->
   areImportsGrouped (group isBuiltin settings records) = true /\
   allOneBlankLine (group isBuiltin settings records)).
Proof.
  intros isBuiltin settings fset node records outcome.
  split; [reflexivity |].
  apply (Run_accepts_iff isBuiltin unit (fun _ => inl settings)
           (fun _ => inl (fset, node)) "main.go" tt settings fset node records);
    try reflexivity.
  repeat constructor; unfold int.min, int.max; simpl; lia.
Defined.
